(** * Drawing areas, squish layout and polyline clipping of package [plt]

    A shallow embedding of the geometric core of the plotting package
    (draw areas, glyph boxes, [squishX]/[squishY], the half-plane clipper
    and the glyph and line drawing primitives), with the properties its
    specification states about them.

    Numbers.  The source computes with [vg.Length] and [float64], both IEEE
    doubles.  Here a length is an exact rational ([Q]): every operation of
    the source is kept, in the order the source applies it, but rounding,
    NaN and signed zero are outside the model, and a division by zero (which
    the source turns into an infinity or a NaN) is [Q]'s total division.
    Numeric equalities are therefore stated with [==] ([Qeq]).  The two
    infinities that [squishX] and [squishY] start their running extremes
    from are modelled by the type [xlen].

    Effects.  The canvas is an external capability; a drawing routine is
    modelled by the sequence of canvas commands it issues, together with the
    way it ends (normally, or by a panic). *)

From Stdlib Require Import QArith Qfield Lqa Lia PeanoNat.
From Stdlib Require Import List Bool String Ascii NArith DecimalString.
Import ListNotations.

Set Implicit Arguments.
Local Open Scope Q_scope.

(** ** Lengths *)

(** [vg.Length] *)
Definition Length := Q.

(** The comparisons of the source, as boolean tests. *)
Definition Qleb (a b : Q) : bool := Qle_bool a b.
Definition Qltb (a b : Q) : bool := negb (Qle_bool b a).
Definition Qgeb (a b : Q) : bool := Qleb b a.
Definition Qgtb (a b : Q) : bool := Qltb b a.

(** ** Points and rectangles *)

Module point.
(** [type point struct { x, y vg.Length }] *)
Record t := mk { x : Length; y : Length }.

Definition dot (p q : t) : Length := x p * x q + y p * y q.
Definition plus (p q : t) : t := mk (x p + x q) (y p + y q).
Definition minus (p q : t) : t := mk (x p - x q) (y p - y q).
Definition scale (p : t) (s : Length) : t := mk (x p * s) (y p * s).
End point.
Abbreviation point := point.t.

Module rect.
(** [type rect struct { min, size point }] *)
Record t := mk { min : point; size : point }.

Definition max (r : t) : point :=
  point.mk (point.x (min r) + point.x (size r))
           (point.y (min r) + point.y (size r)).

(** Component-wise numeric equality of two rectangles. *)
Definition eq (r s : t) : Prop :=
  point.x (min r) == point.x (min s) /\ point.y (min r) == point.y (min s) /\
  point.x (size r) == point.x (size s) /\ point.y (size r) == point.y (size s).
End rect.
Abbreviation rect := rect.t.

Module glyphBox.
(** [type glyphBox struct { x, y float64; rect }] *)
Record t := mk { x : Q; y : Q; rect : rect.t }.

(** The zero value [glyphBox{}]. *)
Definition zero : t :=
  mk 0 0 (rect.mk (point.mk 0 0) (point.mk 0 0)).
End glyphBox.
Abbreviation glyphBox := glyphBox.t.

(** ** The running extremes of squish *)

(** A length or one of the infinities [math.Inf(1)], [math.Inf(-1)]. *)
Inductive xlen := NegInf | Fin (q : Length) | PosInf.

(** [x < m] and [x > m] for a finite [x]. *)
Definition lt_xlen (x : Length) (m : xlen) : bool :=
  match m with PosInf => true | Fin q => Qltb x q | NegInf => false end.
Definition gt_xlen (x : Length) (m : xlen) : bool :=
  match m with NegInf => true | Fin q => Qgtb x q | PosInf => false end.

(** The four variables the loops of [squishX] and [squishY] update. *)
Record extremes := mkExtremes {
  lo_anchor : Length; lo_edge : xlen; hi_anchor : Length; hi_edge : xlen
}.

(** ** Draw areas *)

Module drawArea.
(** [type drawArea struct { vg.Canvas; rect }]; the canvas is a reference
    that derived areas share. *)
Record t (Canvas : Type) := mk { canvas : Canvas; rect : rect.t }.

Section Methods.
Context {Canvas : Type}.
Implicit Type da : t Canvas.

Definition min da : point := rect.min (rect da).
Definition size da : point := rect.size (rect da).
Definition max da : point := rect.max (rect da).

Definition center da : point :=
  point.mk ((point.x (max da) - point.x (min da)) / 2 + point.x (min da))
           ((point.y (max da) - point.y (min da)) / 2 + point.y (min da)).

Definition contains da (p : point) : bool :=
  Qleb (point.x p) (point.x (max da)) && Qgeb (point.x p) (point.x (min da)) &&
  Qleb (point.y p) (point.y (max da)) && Qgeb (point.y p) (point.y (min da)).

Definition x da (u : Q) : Length :=
  u * (point.x (max da) - point.x (min da)) + point.x (min da).

Definition y da (u : Q) : Length :=
  u * (point.y (max da) - point.y (min da)) + point.y (min da).

Definition crop da (minx miny maxx maxy : Length) : t Canvas :=
  let minpt := point.mk (point.x (min da) + minx) (point.y (min da) + miny) in
  let sz := point.mk (point.x (max da) + maxx - point.x minpt)
                     (point.y (max da) + maxy - point.y minpt) in
  mk (canvas da) (rect.mk minpt sz).

(** One iteration of the loop of [squishX]. *)
Definition squishX_step da (e : extremes) (b : glyphBox) : extremes :=
  let x1 := x da (glyphBox.x b) + point.x (rect.min (glyphBox.rect b)) in
  let e1 := if lt_xlen x1 (lo_edge e)
            then mkExtremes (glyphBox.x b) (Fin x1) (hi_anchor e) (hi_edge e)
            else e in
  let x2 := x da (glyphBox.x b) + point.x (rect.min (glyphBox.rect b))
            + point.x (rect.size (glyphBox.rect b)) in
  if gt_xlen x2 (hi_edge e1)
  then mkExtremes (lo_anchor e1) (lo_edge e1) (glyphBox.x b) (Fin x2)
  else e1.

(** One iteration of the loop of [squishY]. *)
Definition squishY_step da (e : extremes) (b : glyphBox) : extremes :=
  let y1 := y da (glyphBox.y b) + point.y (rect.min (glyphBox.rect b)) in
  let e1 := if lt_xlen y1 (lo_edge e)
            then mkExtremes (glyphBox.y b) (Fin y1) (hi_anchor e) (hi_edge e)
            else e in
  let y2 := y da (glyphBox.y b) + point.y (rect.min (glyphBox.rect b))
            + point.y (rect.size (glyphBox.rect b)) in
  if gt_xlen y2 (hi_edge e1)
  then mkExtremes (lo_anchor e1) (lo_edge e1) (glyphBox.y b) (Fin y2)
  else e1.

(** [var left, right vg.Length; minx, maxx := +Inf, -Inf] *)
Definition extremes0 : extremes := mkExtremes 0 PosInf 0 NegInf.

(** The clamps and the closed form that end [squishX], for finite
    extremes [minx] and [maxx]. *)
Definition squishX_solve da (left right minx maxx : Length) : t Canvas :=
  let minx := if Qgeb minx (point.x (min da)) then point.x (min da) else minx in
  let maxx := if Qleb maxx (point.x (max da)) then point.x (max da) else maxx in
  let l := point.x (min da) + (point.x (min da) - minx) in
  let r := point.x (max da) - (maxx - point.x (max da)) in
  let n := (left * r - right * l) / (left - right) in
  let m := ((left - 1) * r - right * l + l) / (left - right) in
  mk (canvas da)
     (rect.mk (point.mk n (point.y (min da)))
              (point.mk (m - n) (point.y (size da)))).

Definition squishY_solve da (bot top miny maxy : Length) : t Canvas :=
  let miny := if Qgeb miny (point.y (min da)) then point.y (min da) else miny in
  let maxy := if Qleb maxy (point.y (max da)) then point.y (max da) else maxy in
  let b := point.y (min da) + (point.y (min da) - miny) in
  let t := point.y (max da) - (maxy - point.y (max da)) in
  let n := (bot * t - top * b) / (bot - top) in
  let m := ((bot - 1) * t - top * b + b) / (bot - top) in
  mk (canvas da)
     (rect.mk (point.mk (point.x (min da)) n)
              (point.mk (point.x (size da)) (m - n))).

(** [squishX].  The loop runs over the boxes followed by [glyphBox{}]
    and [glyphBox{x: 1}], so both extremes are finite when it ends
    (lemma [squishX_loop_finite]); the last branch is never taken. *)
Definition squishX da (boxes : list glyphBox) : t Canvas :=
  match boxes with
  | [] => da
  | _ =>
    let boxes :=
      boxes ++ [glyphBox.zero;
                glyphBox.mk 1 0 (rect.mk (point.mk 0 0) (point.mk 0 0))] in
    let e := fold_left (squishX_step da) boxes extremes0 in
    match lo_edge e, hi_edge e with
    | Fin minx, Fin maxx => squishX_solve da (lo_anchor e) (hi_anchor e) minx maxx
    | _, _ => da
    end
  end.

(** [squishY], with [glyphBox{}] and [glyphBox{y: 1}] appended. *)
Definition squishY da (boxes : list glyphBox) : t Canvas :=
  match boxes with
  | [] => da
  | _ =>
    let boxes :=
      boxes ++ [glyphBox.zero;
                glyphBox.mk 0 1 (rect.mk (point.mk 0 0) (point.mk 0 0))] in
    let e := fold_left (squishY_step da) boxes extremes0 in
    match lo_edge e, hi_edge e with
    | Fin miny, Fin maxy => squishY_solve da (lo_anchor e) (hi_anchor e) miny maxy
    | _, _ => da
    end
  end.
End Methods.
End drawArea.
Abbreviation drawArea := drawArea.t.

(** ** The half-plane clipper *)

(** [const slop = 3e-8] *)
Definition slop : Length := 3 # 100000000.

Definition isLeft (p clip : point) : bool :=
  Qleb (point.x p) (point.x clip + slop).
Definition isRight (p clip : point) : bool :=
  Qgeb (point.x p) (point.x clip - slop).
Definition isBelow (p clip : point) : bool :=
  Qleb (point.y p) (point.y clip + slop).
Definition isAbove (p clip : point) : bool :=
  Qgeb (point.y p) (point.y clip - slop).

(** [isect]: the intersection of the line [p0 -> p1] with the clipping line. *)
Definition isect (p0 p1 clip norm : point) : point :=
  let t := point.dot (point.minus p0 clip) norm
           / point.dot (point.minus p0 p1) norm in
  point.plus (point.scale (point.minus p1 p0) t) p0.

(** The loop of [clip] from index [i] on: [cur] is [pts[i-1]], [rest] is
    [pts[i:]], [l] the open run and [lines] the runs closed so far. *)
Fixpoint clip_loop (in_ : point -> point -> bool) (clip norm : point)
    (cur : point) (rest : list point)
    (l : list point) (lines : list (list point))
    : list point * list (list point) :=
  match rest with
  | [] => (l, lines)
  | next :: rest' =>
    let curIn := in_ cur clip in
    let nextIn := in_ next clip in
    let '(l1, lines1) :=
      if curIn && nextIn then (l ++ [cur], lines)
      else if curIn && negb nextIn then
        ([], lines ++ [l ++ [cur; isect cur next clip norm]])
      else if negb curIn && negb nextIn then (l, lines)
      else (l ++ [isect cur next clip norm], lines) in
    let l2 :=
      if nextIn && (match rest' with [] => true | _ => false end)
      then l1 ++ [next] else l1 in
    clip_loop in_ clip norm next rest' l2 lines1
  end.

(** [clip] *)
Definition clip (in_ : point -> point -> bool) (clipPt norm : point)
    (pts : list point) : list (list point) :=
  match pts with
  | [] => []
  | p :: rest =>
    let '(l, lines) := clip_loop in_ clipPt norm p rest [] [] in
    if Nat.ltb 1 (List.length l) then lines ++ [l] else lines
  end.

(** The four clipping stages of [strokeClippedLine]: the value of [lines1]
    when its last loop starts. *)
Definition clippedLines {Canvas} (da : drawArea Canvas) (pts : list point)
    : list (list point) :=
  let maxp := drawArea.max da in
  let minp := drawArea.min da in
  (* clip right *)
  let lines0 := clip isLeft (point.mk (point.x maxp) (point.y minp))
                     (point.mk (-1) 0) pts in
  (* clip bottom *)
  let lines1 := flat_map (clip isAbove (point.mk (point.x minp) (point.y minp))
                               (point.mk 0 (-1))) lines0 in
  (* clip left *)
  let lines0 := flat_map (clip isRight (point.mk (point.x minp) (point.y minp))
                               (point.mk 1 0)) lines1 in
  (* clip top *)
  flat_map (clip isBelow (point.mk (point.x minp) (point.y maxp))
                 (point.mk 0 1)) lines0.

(** ** The canvas and the [vg] library *)

(** What the package uses of [vg], [image/color] and [math]: colors, fonts
    with their measurements, font construction (which can fail), the
    conversion from points to lengths, the package's [defaultFont] (declared
    in a file of the package that is not part of this development) and
    [math.Pi]. *)
Class Vg := {
  color_Color : Type;
  vg_Font : Type;
  error : Type;
  vg_MakeFont : string -> Length -> vg_Font + error;
  font_Width : vg_Font -> string -> Length;
  font_Descent : vg_Font -> Length;
  vg_Points : Q -> Length;
  defaultFont : string;
  math_Pi : Q
}.

(** The components of a [vg.Path]. *)
Inductive pathComp :=
| MoveComp (x y : Length)
| LineComp (x y : Length)
| ArcComp (x y r start fin : Length)
| CloseComp.

Definition Path := list pathComp.

(** The canvas commands the package issues.  A [color.Color] is an
    interface value: [None] is the nil interface. *)
Inductive command `{Vg} :=
| SetColor (c : option color_Color)
| SetLineWidth (w : Length)
| SetLineDash (dashes : list Length) (offs : Length)
| Fill (p : Path)
| Stroke (p : Path)
| FillText (f : vg_Font) (x y : Length) (s : string).

(** The commands that put ink on the canvas. *)
Definition paints `{Vg} (c : command) : bool :=
  match c with
  | Fill _ | Stroke _ | FillText _ _ _ _ => true
  | _ => false
  end.

(** The value a panic carries: an [error] or a formatted string. *)
Inductive panicValue `{Vg} :=
| PanicError (e : error)
| PanicString (s : string).

(** A drawing routine: the commands issued, in order, and how it ended. *)
Definition draw `{Vg} (A : Type) : Type := (list command * (A + panicValue))%type.

Definition ret `{Vg} {A} (a : A) : draw A := ([], inl a).

Definition bind `{Vg} {A B} (c : draw A) (k : A -> draw B) : draw B :=
  match c with
  | (tr, inl a) => let '(tr', r) := k a in (tr ++ tr', r)
  | (tr, inr p) => (tr, inr p)
  end.

Definition emit `{Vg} (c : command) : draw unit := ([c], inl tt).

Definition panic `{Vg} {A} (p : panicValue) : draw A := ([], inr p).

Notation "c1 ;; c2" := (bind c1 (fun _ => c2))
  (at level 61, right associativity).

(** The commands a routine issued. *)
Definition issued `{Vg} {A} (c : draw A) : list command := fst c.

(** The panic a routine ended with, if it did. *)
Definition panicked `{Vg} {A} (c : draw A) : option panicValue :=
  match snd c with inl _ => None | inr p => Some p end.

(** Each routine run on the elements of a list, left to right. *)
Fixpoint forEach `{Vg} {A} (f : A -> draw unit) (xs : list A) : draw unit :=
  match xs with
  | [] => ret tt
  | a :: xs' => f a ;; forEach f xs'
  end.

(** ** Styles *)

Module LineStyle.
(** [type LineStyle struct { Color; Width; Dashes; DashOffs }] *)
Record t `{Vg} := mk {
  Color : option color_Color;
  Width : Length;
  Dashes : list Length;
  DashOffs : Length
}.
Arguments mk {_} _ _ _ _.
End LineStyle.
Abbreviation LineStyle := LineStyle.t.

(** [type GlyphShape uint8] *)
Definition GlyphShape := N.
Definition CircleGlyph : GlyphShape := 0%N.
Definition RingGlyph : GlyphShape := 1%N.

Module GlyphStyle.
(** [type GlyphStyle struct { color.Color; Shape; Radius }] *)
Record t `{Vg} := mk {
  Color : option color_Color;
  Shape : GlyphShape;
  Radius : Length
}.
Arguments mk {_} _ _ _.
End GlyphStyle.
Abbreviation GlyphStyle := GlyphStyle.t.

(** ** Drawing primitives *)

Section Primitives.
Context `{Vg} {Canvas : Type}.
Implicit Type da : drawArea Canvas.

(** [setLineStyle] *)
Definition setLineStyle da (sty : LineStyle) : draw unit :=
  emit (SetColor (LineStyle.Color sty)) ;;
  emit (SetLineWidth (LineStyle.Width sty)) ;;
  let dashDots :=
    fold_left (fun acc dash => acc ++ [dash]) (LineStyle.Dashes sty) [] in
  emit (SetLineDash dashDots (LineStyle.DashOffs sty)).

(** [fmt.Sprintf("Invalid GlyphShape: %d", shape)] *)
Definition invalidGlyphShape (shape : GlyphShape) : string :=
  ("Invalid GlyphShape: " ++ NilZero.string_of_uint (N.to_uint shape))%string.

(** The closed circle that [CircleGlyph] fills and [RingGlyph] strokes. *)
Definition circlePath (sty : GlyphStyle) (pt : point) : Path :=
  [MoveComp (point.x pt + GlyphStyle.Radius sty) (point.y pt);
   ArcComp (point.x pt) (point.y pt) (GlyphStyle.Radius sty) 0 (2 * math_Pi);
   CloseComp].

(** [drawGlyph]; ['A'] is 65 and ['Z'] is 90. *)
Definition drawGlyph da (sty : GlyphStyle) (pt : point) : draw unit :=
  if negb (drawArea.contains da pt) then ret tt
  else
    setLineStyle da (LineStyle.mk None (vg_Points (1 # 2)) [] 0) ;;
    emit (SetColor (GlyphStyle.Color sty)) ;;
    if N.eqb (GlyphStyle.Shape sty) CircleGlyph then
      emit (Fill (circlePath sty pt))
    else if N.eqb (GlyphStyle.Shape sty) RingGlyph then
      emit (Stroke (circlePath sty pt))
    else if N.leb 65 (GlyphStyle.Shape sty) && N.leb (GlyphStyle.Shape sty) 90 then
      match vg_MakeFont defaultFont (GlyphStyle.Radius sty * 2) with
      | inr err => panic (PanicError err)
      | inl font =>
        let str := String (ascii_of_N (GlyphStyle.Shape sty)) EmptyString in
        let x := point.x pt - font_Width font str / 2 in
        let y := point.y pt + font_Descent font in
        emit (FillText font x y str)
      end
    else panic (PanicString (invalidGlyphShape (GlyphStyle.Shape sty))).

(** [strokeLine] *)
Definition strokeLine da (sty : LineStyle) (pts : list point) : draw unit :=
  match pts with
  | [] => ret tt
  | p0 :: _ =>
    setLineStyle da sty ;;
    emit (Stroke (MoveComp (point.x p0) (point.y p0)
                  :: map (fun pt => LineComp (point.x pt) (point.y pt)) pts))
  end.

(** [strokeClippedLine] *)
Definition strokeClippedLine da (sty : LineStyle) (pts : list point) : draw unit :=
  forEach (strokeLine da sty) (clippedLines da pts).

End Primitives.

(** ** Auxiliary notions and sample inputs *)

(** A stand-in for [vg]: one color, one font of width 0, points as lengths. *)
Definition plainVg : Vg := {|
  color_Color := unit;
  vg_Font := unit;
  error := unit;
  vg_MakeFont := fun _ _ => inl tt;
  font_Width := fun _ _ => 0;
  font_Descent := fun _ => 0;
  vg_Points := fun q => q;
  defaultFont := "Times-Roman";
  math_Pi := 355 # 113
|}.

(** The area with min (0,0) and size (10,10). *)
Definition area10 : drawArea unit :=
  drawArea.mk tt (rect.mk (point.mk 0 0) (point.mk 10 10)).

(** A point passes the four membership tests of [strokeClippedLine]. *)
Definition passesAll {Canvas} (da : drawArea Canvas) (p : point) : bool :=
  isLeft p (point.mk (point.x (drawArea.max da)) (point.y (drawArea.min da))) &&
  isAbove p (point.mk (point.x (drawArea.min da)) (point.y (drawArea.min da))) &&
  isRight p (point.mk (point.x (drawArea.min da)) (point.y (drawArea.min da))) &&
  isBelow p (point.mk (point.x (drawArea.min da)) (point.y (drawArea.max da))).

(** A polyline inside [area10]. *)
Definition insidePolyline : list point :=
  [point.mk 1 2; point.mk 3 9; point.mk 10 0].

(** A glyph style whose shape is none of the valid ones. *)
Definition badGlyph : @GlyphStyle plainVg :=
  @GlyphStyle.mk plainVg (Some tt) 200%N 3.

(** The absolute left and right edges of a glyph box under the mapping of a
    draw area: the two values the loop of [squishX] compares. *)
Definition leftEdge {Canvas} (da : drawArea Canvas) (b : glyphBox) : Length :=
  drawArea.x da (glyphBox.x b) + point.x (rect.min (glyphBox.rect b)).
Definition rightEdge {Canvas} (da : drawArea Canvas) (b : glyphBox) : Length :=
  drawArea.x da (glyphBox.x b) + point.x (rect.min (glyphBox.rect b))
  + point.x (rect.size (glyphBox.rect b)).

(** [glyphBox{x: 1}], the second box that [squishX] appends. *)
Definition unitBoxX : glyphBox :=
  glyphBox.mk 1 0 (rect.mk (point.mk 0 0) (point.mk 0 0)).

(** The extremes when the loop of [squishX] ends. *)
Definition squishX_extremes {Canvas} (da : drawArea Canvas)
    (boxes : list glyphBox) : extremes :=
  fold_left (drawArea.squishX_step da) (boxes ++ [glyphBox.zero; unitBoxX])
            drawArea.extremes0.

(** The box that [horizontalAxis.glyphBoxes] makes for a tick label of
    width [w] at the normalized position [u]: centered on its anchor. *)
Definition tickLabelBox (u : Q) (w : Length) : glyphBox :=
  glyphBox.mk u 0 (rect.mk (point.mk (- w / 2) 0) (point.mk w 0)).

(** A label of width 8 at the first and at the third quarter of the axis:
    under [area10] the first reaches from -1.5 to 6.5, the second from 3.5
    to 11.5. *)
Definition quarterLabel : glyphBox := tickLabelBox (1 # 4) 8.
Definition threeQuarterLabel : glyphBox := tickLabelBox (3 # 4) 8.

(** A label of width 5 at the first quarter of the axis: under [area10] it
    reaches from 0, the left edge of the area, to 5. *)
Definition touchingLabel : glyphBox := tickLabelBox (1 # 4) 5.

(** A running minimum that is still infinite or lies strictly right of
    [k]; a running maximum that is still infinite or lies strictly left of
    [k]. *)
Definition lo_above (k : Length) (m : xlen) : Prop :=
  match m with PosInf => True | Fin q => k < q | NegInf => False end.
Definition hi_below (k : Length) (m : xlen) : Prop :=
  match m with NegInf => True | Fin q => q < k | PosInf => False end.


(** A point keeps clear of the tolerance bands just outside the right, the
    bottom and the left edge: on each of these sides it is within the exact
    bound or beyond it by more than [slop]. *)
Definition clearOfBands {Canvas} (da : drawArea Canvas) (p : point) : Prop :=
  (point.x p <= point.x (drawArea.max da)
   \/ point.x (drawArea.max da) + slop < point.x p) /\
  (point.y (drawArea.min da) <= point.y p
   \/ point.y p < point.y (drawArea.min da) - slop) /\
  (point.x (drawArea.min da) <= point.x p
   \/ point.x p < point.x (drawArea.min da) - slop).

(** The style of the axis line in the sample drawings. *)
Definition plainLine : @LineStyle plainVg := @LineStyle.mk plainVg None 1 [] 0.

(** A polyline above [area10] that crosses the line of its right edge. *)
Definition farPolyline : list point := [point.mk 5 20; point.mk 30 12].

(** A polyline above and right of [area10] whose first point lies in the
    tolerance band of the right edge. *)
Definition cornerPolyline : list point :=
  [point.mk (10 + slop) (10 + (1 # 10000000));
   point.mk (10 + 2 * slop) 1000000000].

(** A polyline of points that [area10] contains, corners included. *)
Definition cornerToCorner : list point :=
  [point.mk 0 0; point.mk 4 7; point.mk 10 10].

(** A label of width 2 at the right end of the axis: under [area10] it
    reaches from 9 to 11. *)
Definition endLabel : glyphBox := tickLabelBox 1 2.

(** A label of width 2 in the middle of the axis: under [area10] it reaches
    from 4 to 6. *)
Definition middleLabel : glyphBox := tickLabelBox (1 # 2) 2.

(** The absolute bottom and top edges of a glyph box under the mapping of a
    draw area: the two values the loop of [squishY] compares. *)
Definition bottomEdge {Canvas} (da : drawArea Canvas) (b : glyphBox) : Length :=
  drawArea.y da (glyphBox.y b) + point.y (rect.min (glyphBox.rect b)).
Definition topEdge {Canvas} (da : drawArea Canvas) (b : glyphBox) : Length :=
  drawArea.y da (glyphBox.y b) + point.y (rect.min (glyphBox.rect b))
  + point.y (rect.size (glyphBox.rect b)).

(** [glyphBox{y: 1}], the second box that [squishY] appends. *)
Definition unitBoxY : glyphBox :=
  glyphBox.mk 0 1 (rect.mk (point.mk 0 0) (point.mk 0 0)).

(** The extremes when the loop of [squishY] ends. *)
Definition squishY_extremes {Canvas} (da : drawArea Canvas)
    (boxes : list glyphBox) : extremes :=
  fold_left (drawArea.squishY_step da) (boxes ++ [glyphBox.zero; unitBoxY])
            drawArea.extremes0.

(** The box that [verticalAxis.glyphBoxes] makes for a tick label of height
    [h] at the normalized position [u]. *)
Definition tickLabelBoxY (u : Q) (h : Length) : glyphBox :=
  glyphBox.mk 0 u (rect.mk (point.mk 0 (- h / 2)) (point.mk 0 h)).

(** A label of height 2 at the top end and one in the middle of the axis. *)
Definition topLabel : glyphBox := tickLabelBoxY 1 2.
Definition halfwayLabel : glyphBox := tickLabelBoxY (1 # 2) 2.

(** A horizontal polyline that crosses [area10] from left to right. *)
Definition crossingPolyline : list point := [point.mk (-5) 5; point.mk 15 5].

(** A dashed line style. *)
Definition dashedLine : @LineStyle plainVg :=
  @LineStyle.mk plainVg (Some tt) 2 [3; 1; 4] 5.

(** The letter A as a glyph of radius 3. *)
Definition letterGlyph : @GlyphStyle plainVg :=
  @GlyphStyle.mk plainVg (Some tt) 65%N 3.

(** The number of commands of a list that put ink on the canvas. *)
Definition inkCount `{Vg} (cs : list command) : nat :=
  List.length (filter paints cs).

(** A disc of radius 3. *)
Definition discGlyph : @GlyphStyle plainVg :=
  @GlyphStyle.mk plainVg (Some tt) CircleGlyph 3.

(** ** Text *)

(** What the text routines use of a [vg.Font] beyond [Vg]: its size and the
    ascent and line height of its extents. *)
Class VgText `{Vg} := {
  font_Size : vg_Font -> Length;
  font_Ascent : vg_Font -> Length;
  font_Height : vg_Font -> Length
}.

Module TextStyle.
(** [type TextStyle struct { Color; Font }] *)
Record t `{Vg} := mk {
  Color : option color_Color;
  Font : vg_Font
}.
Arguments mk {_} _ _.
End TextStyle.
Abbreviation TextStyle := TextStyle.t.

(** A text is the sequence of its bytes.  The byte 10 is the rune ['\n'] and
    occurs in the UTF-8 encoding of no other rune, so a loop over the runes
    that looks for ['\n'] is a loop over the bytes. *)
Definition newline : ascii := ascii_of_N 10.

(** [strings.TrimRight(txt, "\n")] *)
Fixpoint trimRightNewlines (txt : string) : string :=
  match txt with
  | EmptyString => EmptyString
  | String ch rest =>
    match trimRightNewlines rest with
    | EmptyString => if Ascii.eqb ch newline then EmptyString
                     else String ch EmptyString
    | trimmed => String ch trimmed
    end
  end.

(** [strings.Split(txt, "\n")]: the pieces between the newlines; one piece,
    the text itself, when there is none. *)
Fixpoint splitLines (txt : string) : list string :=
  match txt with
  | EmptyString => [EmptyString]
  | String ch rest =>
    if Ascii.eqb ch newline then EmptyString :: splitLines rest
    else match splitLines rest with
         | line :: lines => String ch line :: lines
         | [] => [String ch EmptyString]
         end
  end.

(** The loop of [textNLines]: [n] is incremented at every newline. *)
Fixpoint countLines (txt : string) (n : Z) : Z :=
  match txt with
  | EmptyString => n
  | String ch rest =>
    countLines rest (if Ascii.eqb ch newline then (n + 1)%Z else n)
  end.

(** [textNLines] *)
Definition textNLines (txt : string) : Z :=
  let txt := trimRightNewlines txt in
  if Nat.eqb (String.length txt) 0 then 0%Z else countLines txt 1.

Section Text.
Context `{VgText} {Canvas : Type}.
Implicit Type da : drawArea Canvas.

(** [TextStyle.height] *)
Definition height (sty : TextStyle) (txt : string) : Length :=
  let nl := textNLines txt in
  if Z.eqb nl 0 then 0
  else font_Height (TextStyle.Font sty) * inject_Z (nl - 1)
       + font_Ascent (TextStyle.Font sty).

(** [TextStyle.width]: the running maximum starts from 0. *)
Definition width (sty : TextStyle) (txt : string) : Length :=
  let txt := trimRightNewlines txt in
  fold_left (fun max line =>
               let w := font_Width (TextStyle.Font sty) line in
               if Qgtb w max then w else max)
            (splitLines txt) 0.

(** The loop of [fillText] from the line of index [i] on. *)
Fixpoint fillLines (sty : TextStyle) (x y xalign : Length) (nl : Z)
    (lines : list string) (i : Z) : draw unit :=
  match lines with
  | [] => ret tt
  | line :: lines' =>
    let xoffs := xalign * font_Width (TextStyle.Font sty) line in
    let n := inject_Z (nl - i) in
    emit (FillText (TextStyle.Font sty) (x + xoffs)
                   (y + n * font_Size (TextStyle.Font sty)) line) ;;
    fillLines sty x y xalign nl lines' (i + 1)
  end.

(** [fillText] *)
Definition fillText da (sty : TextStyle) (x y : Length) (xalign yalign : Q)
    (txt : string) : draw unit :=
  let txt := trimRightNewlines txt in
  if Nat.eqb (String.length txt) 0 then ret tt
  else
    emit (SetColor (TextStyle.Color sty)) ;;
    let ht := height sty txt in
    let y := y + (ht * yalign - font_Ascent (TextStyle.Font sty)) in
    let nl := textNLines txt in
    fillLines sty x y xalign nl (splitLines txt) 0.

End Text.

(** The strings of the [FillText] commands of a list, in order. *)
Fixpoint filledStrings `{Vg} (cs : list command) : list string :=
  match cs with
  | [] => []
  | FillText _ _ _ s :: cs' => s :: filledStrings cs'
  | _ :: cs' => filledStrings cs'
  end.

(** A font 10 high with an ascent of 8, in which every byte is 6 wide. *)
Definition fixedVg : Vg := {|
  color_Color := unit;
  vg_Font := unit;
  error := unit;
  vg_MakeFont := fun _ _ => inl tt;
  font_Width := fun _ s => 6 * inject_Z (Z.of_nat (String.length s));
  font_Descent := fun _ => -2;
  vg_Points := fun q => q;
  defaultFont := "Times-Roman";
  math_Pi := 355 # 113
|}.
Definition fixedVgText : @VgText fixedVg := {|
  font_Size := fun _ => 10;
  font_Ascent := fun _ => 8;
  font_Height := fun _ => 10
|}.
Definition fixedText : @TextStyle fixedVg := @TextStyle.mk fixedVg None tt.

(** A text made of newlines only (the empty text is one). *)
Fixpoint onlyNewlines (txt : string) : bool :=
  match txt with
  | EmptyString => true
  | String ch rest => Ascii.eqb ch newline && onlyNewlines rest
  end.

(** ** Ticks and axes *)

Notation "x <- c1 ;; c2" := (bind c1 (fun x => c2))
  (at level 61, c1 at next level, right associativity).

Module Tick.
(** [type Tick struct { Value float64; Label string }] *)
Record t := mk { Value : Q; Label : string }.

(** [minor]: a tick without label. *)
Definition minor (tk : t) : bool := String.eqb (Label tk) EmptyString.

(** [lengthOffset] *)
Definition lengthOffset (tk : t) (len : Length) : Length :=
  if minor tk then len / 2 else 0.
End Tick.
Abbreviation Tick := Tick.t.

Section Ticks.
(** [fmt.Sprintf("%g", v)], which belongs to the standard library. *)
Variable formatG : Q -> string.

(** [DefaultTicks] *)
Definition DefaultTicks (min max : Q) : list Tick :=
  [Tick.mk min (formatG min);
   Tick.mk (min + (max - min) / 4) EmptyString;
   Tick.mk (min + (max - min) / 2) (formatG (min + (max - min) / 2));
   Tick.mk (min + 3 * (max - min) / 4) EmptyString;
   Tick.mk max (formatG max)].
End Ticks.

(** [ConstantTicks] *)
Definition ConstantTicks (ts : list Tick) : Q -> Q -> list Tick :=
  fun _ _ => ts.

Module Axis.
(** [type Axis struct]: the range, the label with its style, the style of
    the axis line, the padding, and the style, length and marker of the
    ticks. *)
Record t `{Vg} := mk {
  Min : Q;
  Max : Q;
  LabelText : string;
  LabelStyle : TextStyle;
  Line : LineStyle;
  Padding : Length;
  TickLabel : TextStyle;
  TickLine : LineStyle;
  TickLength : Length;
  TickMarker : Q -> Q -> list Tick
}.
Arguments mk {_} _ _ _ _ _ _ _ _ _ _.

Section Methods.
Context `{Vg} {Canvas : Type}.

(** [norm] *)
Definition norm (a : t) (x : Q) : Q := (x - Min a) / (Max a - Min a).

(** [x] and [y]: from a data coordinate to a drawing coordinate. *)
Definition x (a : t) (da : drawArea Canvas) (v : Q) : Length :=
  drawArea.x da (norm a v).
Definition y (a : t) (da : drawArea Canvas) (v : Q) : Length :=
  drawArea.y da (norm a v).
End Methods.
End Axis.
Abbreviation Axis := Axis.t.

Section AxisLayout.
Context `{VgText} {Canvas : Type}.
Implicit Type da : drawArea Canvas.

(** [strokeLine2] *)
Definition strokeLine2 da (sty : LineStyle) (x0 y0 x1 y1 : Length) : draw unit :=
  strokeLine da sty [point.mk x0 y0; point.mk x1 y1].

(** [tickLabelHeight]: the running maximum starts from 0 and skips the
    minor ticks. *)
Definition tickLabelHeight (sty : TextStyle) (ticks : list Tick) : Length :=
  fold_left (fun maxHeight tk =>
               if Tick.minor tk then maxHeight
               else let h := height sty (Tick.Label tk) in
                    if Qgtb h maxHeight then h else maxHeight)
            ticks 0.

(** [tickLabelWidth] *)
Definition tickLabelWidth (sty : TextStyle) (ticks : list Tick) : Length :=
  fold_left (fun maxWidth tk =>
               if Tick.minor tk then maxWidth
               else let w := width sty (Tick.Label tk) in
                    if Qgtb w maxWidth then w else maxWidth)
            ticks 0.

(** [horizontalAxis.size]: the height of the axis. *)
Definition horizontalAxis_size (a : Axis) : Length :=
  let h := 0 in
  let h := if negb (String.eqb (Axis.LabelText a) EmptyString)
           then let h := h - font_Descent (TextStyle.Font (Axis.LabelStyle a)) in
                h + height (Axis.LabelStyle a) (Axis.LabelText a)
           else h in
  let marks := Axis.TickMarker a (Axis.Min a) (Axis.Max a) in
  let h := if Nat.ltb 0 (List.length marks)
           then h + (Axis.TickLength a + tickLabelHeight (Axis.TickLabel a) marks)
           else h in
  let h := h + LineStyle.Width (Axis.Line a) / 2 in
  h + Axis.Padding a.

(** [horizontalAxis.draw]: the label, the tick labels, the tick marks and
    the axis line, from the bottom of the area upwards. *)
Definition horizontalAxis_draw (a : Axis) da : draw unit :=
  let y := point.y (drawArea.min da) in
  y <- (if negb (String.eqb (Axis.LabelText a) EmptyString)
        then
          let y := y - font_Descent (TextStyle.Font (Axis.LabelStyle a)) in
          fillText da (Axis.LabelStyle a) (point.x (drawArea.center da)) y
                   (- (1 # 2)) 0 (Axis.LabelText a) ;;
          ret (y + height (Axis.LabelStyle a) (Axis.LabelText a))
        else ret y) ;;
  let marks := Axis.TickMarker a (Axis.Min a) (Axis.Max a) in
  y <- (if Nat.ltb 0 (List.length marks)
        then
          forEach (fun tk =>
                     if Tick.minor tk then ret tt
                     else fillText da (Axis.TickLabel a) (Axis.x a da (Tick.Value tk))
                                   y (- (1 # 2)) 0 (Tick.Label tk)) marks ;;
          let y := y + tickLabelHeight (Axis.TickLabel a) marks in
          let len := Axis.TickLength a in
          forEach (fun tk =>
                     let x := Axis.x a da (Tick.Value tk) in
                     strokeLine2 da (Axis.TickLine a)
                                 x (y + Tick.lengthOffset tk len) x (y + len)) marks ;;
          ret (y + len)
        else ret y) ;;
  strokeLine2 da (Axis.Line a) (point.x (drawArea.min da)) y
              (point.x (drawArea.max da)) y.

End AxisLayout.

(** An axis from 2 to 12 with the default ticks, each labelled "x". *)
Definition sampleAxis : @Axis fixedVg :=
  @Axis.mk fixedVg 2 12 "Time" fixedText (@LineStyle.mk fixedVg None 1 [] 0) 5
           fixedText (@LineStyle.mk fixedVg None 1 [] 0) 8
           (DefaultTicks (fun _ => "x"%string)).

(** ** Package [palette]: reversed color maps *)

Module ColorMap.
(** What [Reverse] uses of the [ColorMap] interface: [At], [Max], [Min], and
    [Palette] followed by [Colors], which gives a slice of colors.  A color
    is an interface value: [None] is nil. *)
Record t (Color Err : Type) := mk {
  At : Q -> Color + Err;
  Max : Q;
  Min : Q;
  Palette : Z -> list (option Color)
}.
End ColorMap.
Abbreviation ColorMap := ColorMap.t.

(** [s[n] = v] on a slice; the loop below stays within the bounds. *)
Fixpoint setAt {A} (n : nat) (v : A) (s : list A) : list A :=
  match s, n with
  | [], _ => []
  | _ :: s', O => v :: s'
  | a :: s', S n' => a :: setAt n' v s'
  end.

(** The loop of [Reverse.Palette], [c2[i], c2[j] = c[j], c[i]] while
    [i < j].  It runs at most [len(c)] times, which is the fuel
    [reverseColors] gives it. *)
Fixpoint reverseLoop {A} (fuel : nat) (c : list (option A)) (i j : Z)
    (c2 : list (option A)) : list (option A) :=
  match fuel with
  | O => c2
  | S fuel' =>
    if (i <? j)%Z then
      let cj := nth (Z.to_nat j) c None in
      let ci := nth (Z.to_nat i) c None in
      reverseLoop fuel' c (i + 1) (j - 1)
                  (setAt (Z.to_nat j) ci (setAt (Z.to_nat i) cj c2))
    else c2
  end.

(** The colors that [Reverse.Palette] returns for the colors [c] of the
    map it contains: [c2] starts as [len(c)] nil colors. *)
Definition reverseColors {A} (c : list (option A)) : list (option A) :=
  reverseLoop (List.length c) c 0 (Z.of_nat (List.length c) - 1)
              (repeat None (List.length c)).

(** [Reverse{cm}] as a color map: [At] and [Palette] are its own, [Max] and
    [Min] are those of the map it contains. *)
Definition Reverse {Color Err} (cm : ColorMap Color Err) : ColorMap Color Err :=
  ColorMap.mk
    (fun v => ColorMap.At cm (ColorMap.Max cm - (v - ColorMap.Min cm)))
    (ColorMap.Max cm)
    (ColorMap.Min cm)
    (fun colors => reverseColors (ColorMap.Palette cm colors)).

(** ** Segments *)

(** The point of the segment from [p] to [q] at the parameter [t]; [isect]
    returns such a point. *)
Definition lerp (p q : point) (t : Q) : point :=
  point.plus (point.scale (point.minus q p) t) p.

(** A relation holds between every two consecutive points of a polyline. *)
Fixpoint chain (R : point -> point -> Prop) (pts : list point) : Prop :=
  match pts with
  | p :: ((q :: _) as rest) => R p q /\ chain R rest
  | _ => True
  end.

(** The segment from [p] to [q] lies outside the area enlarged by the
    tolerance: each of its points fails at least one of the four tests. *)
Definition segmentOutside {Canvas} (da : drawArea Canvas) (p q : point) : Prop :=
  forall t, 0 <= t -> t <= 1 -> passesAll da (lerp p q t) = false.

(** The four tests as inequalities. *)
Definition withinTol {Canvas} (da : drawArea Canvas) (p : point) : Prop :=
  point.x p <= point.x (drawArea.max da) + slop /\
  point.y (drawArea.min da) - slop <= point.y p /\
  point.x (drawArea.min da) - slop <= point.x p /\
  point.y p <= point.y (drawArea.max da) + slop.


(** A segment that passes the lower right corner of [area10] outside the
    area, but closer to it than the tolerance. *)
Definition grazingSegment : list point :=
  [point.mk 20 1; point.mk 0 (- 1 - slop)].


(** An area of negative width: min (0,0) and size (-10,10). *)
Definition flippedArea : drawArea unit :=
  drawArea.mk tt (rect.mk (point.mk 0 0) (point.mk (-10) 10)).

(** A segment that crosses the line of the right edge of [flippedArea]
    inside the tolerance band of its bottom edge. *)
Definition shallowSegment : list point :=
  [point.mk 10 ((1 # 2) * slop); point.mk (-30) (- (3 # 2) * slop)].

(** A segment left of [area10] whose first point lies in the tolerance band
    of the bottom edge, and a segment above [area10] whose first point lies
    in the tolerance band of the left edge. *)
Definition bottomBandSegment : list point :=
  [point.mk (-1) (- (1 # 2) * slop); point.mk (-21) (- (3 # 2) * slop)].
Definition leftBandSegment : list point :=
  [point.mk (- (1 # 2) * slop) 20; point.mk (- (3 # 2) * slop) 40].

(** ** The comparisons *)

Lemma Qleb_spec a b : Qleb a b = true <-> a <= b.
Proof. unfold Qleb. apply Qle_bool_iff. Qed.

Lemma Qleb_false a b : Qleb a b = false <-> b < a.
Proof.
  unfold Qleb. split; intro H.
  - apply Qnot_le_lt. intro L. apply Qle_bool_iff in L. congruence.
  - destruct (Qle_bool a b) eqn:E; [|reflexivity].
    apply Qle_bool_iff in E. exfalso. apply (Qlt_not_le _ _ H E).
Qed.

Lemma Qltb_spec a b : Qltb a b = true <-> a < b.
Proof. unfold Qltb. rewrite negb_true_iff. apply Qleb_false. Qed.

Lemma Qltb_false a b : Qltb a b = false <-> b <= a.
Proof. unfold Qltb. rewrite negb_false_iff. apply Qleb_spec. Qed.

(** ** The unit-interval mapping *)

(** C8. For every draw area, [x] is the affine map [u |-> min.x + u * size.x]
    (for every [u], inside the unit interval or not), with [x 0 = min.x],
    [x 1 = max.x] and [x (1/2) = (min.x + max.x) / 2]; and the same holds
    for [y]. *)
Theorem x_y_affine {Canvas} (da : drawArea Canvas) (u : Q) :
  drawArea.x da u == point.x (drawArea.min da) + u * point.x (drawArea.size da) /\
  drawArea.x da 0 == point.x (drawArea.min da) /\
  drawArea.x da 1 == point.x (drawArea.max da) /\
  drawArea.x da (1 # 2)
    == (point.x (drawArea.min da) + point.x (drawArea.max da)) / 2 /\
  drawArea.y da u == point.y (drawArea.min da) + u * point.y (drawArea.size da) /\
  drawArea.y da 0 == point.y (drawArea.min da) /\
  drawArea.y da 1 == point.y (drawArea.max da) /\
  drawArea.y da (1 # 2)
    == (point.y (drawArea.min da) + point.y (drawArea.max da)) / 2.
Proof.
  unfold drawArea.x, drawArea.y, drawArea.max, drawArea.min, drawArea.size,
    rect.max; simpl.
  repeat split; try ring; field.
Qed.

(** ** Squish on no boxes *)

(** C7. [squishX] and [squishY] applied to the empty list of boxes return
    the draw area they were given. *)
Theorem squish_nil {Canvas} (da : drawArea Canvas) :
  drawArea.squishX da [] = da /\ drawArea.squishY da [] = da.
Proof. split; reflexivity. Qed.

(** ** One half-plane clip *)

Section Clip.
Variable in_ : point -> point -> bool.
Variables clipPt norm : point.

(** The runs the loop closes all have two points or more. *)
Lemma clip_loop_runs rest : forall cur l lines,
  Forall (fun run => (2 <= List.length run)%nat) lines ->
  Forall (fun run => (2 <= List.length run)%nat)
         (snd (clip_loop in_ clipPt norm cur rest l lines)).
Proof.
  induction rest as [|next rest' IH]; intros cur l lines Hl; simpl; [exact Hl|].
  destruct (in_ cur clipPt), (in_ next clipPt); simpl; apply IH; try exact Hl.
  apply Forall_app; split; [exact Hl|].
  constructor; [|constructor].
  rewrite length_app; simpl; lia.
Qed.

(** When every point passes the test, the loop collects them all in the
    open run and closes none. *)
Lemma clip_loop_all_in rest : forall cur l lines,
  rest <> [] ->
  in_ cur clipPt = true ->
  (forall p, In p rest -> in_ p clipPt = true) ->
  clip_loop in_ clipPt norm cur rest l lines = (l ++ cur :: rest, lines).
Proof.
  induction rest as [|next rest' IH]; intros cur l lines Hne Hc Hr; [congruence|].
  simpl. rewrite Hc, (Hr next (or_introl eq_refl)). simpl.
  destruct rest' as [|p2 rest''].
  - simpl. rewrite <- app_assoc. reflexivity.
  - rewrite IH.
    + rewrite <- app_assoc. reflexivity.
    + discriminate.
    + apply Hr. left. reflexivity.
    + intros p Hp. apply Hr. right. exact Hp.
Qed.

Lemma clip_all_in pts :
  (2 <= List.length pts)%nat ->
  (forall p, In p pts -> in_ p clipPt = true) ->
  clip in_ clipPt norm pts = [pts].
Proof.
  intros Hlen Hin. destruct pts as [|p rest]; [simpl in Hlen; lia|].
  destruct rest as [|q rest]; [simpl in Hlen; lia|].
  unfold clip. rewrite clip_loop_all_in.
  - simpl. reflexivity.
  - discriminate.
  - apply Hin. left. reflexivity.
  - intros r Hr. apply Hin. right. exact Hr.
Qed.

(** When no point passes the test, the loop changes nothing. *)
Lemma clip_loop_all_out rest : forall cur l lines,
  in_ cur clipPt = false ->
  (forall p, In p rest -> in_ p clipPt = false) ->
  clip_loop in_ clipPt norm cur rest l lines = (l, lines).
Proof.
  induction rest as [|next rest' IH]; intros cur l lines Hc Hr; [reflexivity|].
  simpl. rewrite Hc, (Hr next (or_introl eq_refl)). simpl.
  apply IH.
  - apply Hr. left. reflexivity.
  - intros p Hp. apply Hr. right. exact Hp.
Qed.

Lemma clip_all_out pts :
  (forall p, In p pts -> in_ p clipPt = false) ->
  clip in_ clipPt norm pts = [].
Proof.
  intros Hout. destruct pts as [|p rest]; [reflexivity|].
  unfold clip. rewrite clip_loop_all_out.
  - reflexivity.
  - apply Hout. left. reflexivity.
  - intros r Hr. apply Hout. right. exact Hr.
Qed.

(** Every point of every run is a point of the input or an intersection
    computed for a pair of input points on opposite sides: a property [Post]
    that holds of both holds of all points of all runs. *)
Variables Pre Post : point -> Prop.
Hypothesis Pre_Post : forall p, Pre p -> Post p.
Hypothesis isect_Post : forall a b,
  Pre a -> Pre b -> in_ a clipPt <> in_ b clipPt ->
  Post (isect a b clipPt norm).

Lemma clip_loop_points rest : forall cur l lines,
  Pre cur -> Forall Pre rest ->
  Forall Post l -> Forall (Forall Post) lines ->
  Forall Post (fst (clip_loop in_ clipPt norm cur rest l lines)) /\
  Forall (Forall Post) (snd (clip_loop in_ clipPt norm cur rest l lines)).
Proof.
  induction rest as [|next rest' IH]; intros cur l lines Hc Hr Hl Hls; simpl;
    [split; assumption|].
  inversion Hr as [|? ? Hn Hr']; subst.
  assert (Hx : in_ cur clipPt <> in_ next clipPt ->
               Post (isect cur next clipPt norm))
    by (intro; apply isect_Post; assumption).
  assert (Pc : Post cur) by (apply Pre_Post; exact Hc).
  assert (Pn : Post next) by (apply Pre_Post; exact Hn).
  assert (P1 : forall q, Post q -> Forall Post [q]) by (repeat constructor; assumption).
  destruct (in_ cur clipPt), (in_ next clipPt); simpl;
    destruct rest'; apply IH; try assumption; try constructor;
    repeat (apply Forall_app; split; try assumption);
    try (apply P1; try assumption; apply Hx; discriminate).
  all: constructor; [|constructor].
  all: apply Forall_app; split; [assumption|].
  all: constructor; [assumption|apply P1; apply Hx; discriminate].
Qed.

Lemma clip_points pts :
  Forall Pre pts -> Forall (Forall Post) (clip in_ clipPt norm pts).
Proof.
  intros Hp. destruct pts as [|p rest]; [constructor|].
  inversion Hp as [|? ? Hp0 Hrest]; subst.
  unfold clip.
  destruct (@clip_loop_points rest p [] [] Hp0 Hrest) as [Hl Hls];
    [constructor|constructor|].
  destruct (clip_loop in_ clipPt norm p rest [] []) as [l lines]; simpl in *.
  destruct (Nat.ltb 1 (List.length l)); [|exact Hls].
  apply Forall_app; split; [exact Hls|]. constructor; [exact Hl|constructor].
Qed.

End Clip.

(** C6. For every membership test, clipping line and input polyline, each
    run that [clip] returns has at least two points. *)
Theorem clip_runs_two_points (in_ : point -> point -> bool)
    (clipPt norm : point) (pts : list point) :
  Forall (fun run => (2 <= List.length run)%nat) (clip in_ clipPt norm pts).
Proof.
  destruct pts as [|p rest]; [constructor|].
  unfold clip.
  pose proof (@clip_loop_runs in_ clipPt norm rest p [] []
                (Forall_nil _)) as Hruns.
  destruct (clip_loop in_ clipPt norm p rest [] []) as [l lines]; simpl in *.
  destruct (Nat.ltb 1 (List.length l)) eqn:E; [|exact Hruns].
  apply Forall_app; split; [exact Hruns|].
  constructor; [|constructor].
  apply Nat.ltb_lt in E. lia.
Qed.

(** ** The four-stage pipeline on a polyline inside the area *)

(** C5. A polyline of two points or more, all of which pass every edge's
    membership test, comes out of the four clipping stages as exactly one
    run: the polyline itself. *)
Theorem clippedLines_inside {Canvas} (da : drawArea Canvas) (pts : list point) :
  (2 <= List.length pts)%nat ->
  (forall p, In p pts -> passesAll da p = true) ->
  clippedLines da pts = [pts].
Proof.
  intros Hlen Hin. unfold clippedLines.
  assert (H4 : forall p, In p pts ->
    isLeft p (point.mk (point.x (drawArea.max da)) (point.y (drawArea.min da))) = true /\
    isAbove p (point.mk (point.x (drawArea.min da)) (point.y (drawArea.min da))) = true /\
    isRight p (point.mk (point.x (drawArea.min da)) (point.y (drawArea.min da))) = true /\
    isBelow p (point.mk (point.x (drawArea.min da)) (point.y (drawArea.max da))) = true).
  { intros p Hp. specialize (Hin p Hp). unfold passesAll in Hin.
    repeat rewrite andb_true_iff in Hin. tauto. }
  rewrite (clip_all_in isLeft) by (try exact Hlen; intros p Hp; apply (H4 p Hp)).
  simpl flat_map at 3.
  rewrite (clip_all_in isAbove) by (try exact Hlen; intros p Hp; apply (H4 p Hp)).
  simpl flat_map at 2.
  rewrite (clip_all_in isRight) by (try exact Hlen; intros p Hp; apply (H4 p Hp)).
  simpl flat_map.
  rewrite (clip_all_in isBelow) by (try exact Hlen; intros p Hp; apply (H4 p Hp)).
  reflexivity.
Qed.

Lemma clippedLines_inside_witness :
  (2 <= List.length insidePolyline)%nat /\
  (forall p, In p insidePolyline -> passesAll area10 p = true) /\
  clippedLines area10 insidePolyline = [insidePolyline].
Proof.
  assert (Hlen : (2 <= List.length insidePolyline)%nat) by (simpl; lia).
  assert (Hin : forall p, In p insidePolyline -> passesAll area10 p = true).
  { intros p [<-|[<-|[<-|[]]]]; vm_compute; reflexivity. }
  split; [exact Hlen|]. split; [exact Hin|].
  exact (clippedLines_inside area10 _ Hlen Hin).
Defined.

(** ** Glyphs *)

(** C10. For every glyph style, valid or not, [drawGlyph] at a point that the
    draw area does not contain issues no canvas command and returns
    normally. *)
Theorem drawGlyph_outside `{Vg} {Canvas} (da : drawArea Canvas)
    (sty : GlyphStyle) (pt : point) :
  drawArea.contains da pt = false ->
  issued (drawGlyph da sty pt) = [] /\ panicked (drawGlyph da sty pt) = None.
Proof.
  intros Hout. unfold drawGlyph. rewrite Hout. simpl. split; reflexivity.
Qed.

Lemma drawGlyph_outside_witness :
  drawArea.contains area10 (point.mk 11 5) = false /\
  issued (drawGlyph area10 badGlyph (point.mk 11 5)) = [] /\
  panicked (drawGlyph area10 badGlyph (point.mk 11 5)) = None.
Proof.
  assert (Hout : drawArea.contains area10 (point.mk 11 5) = false)
    by (vm_compute; reflexivity).
  split; [exact Hout|].
  exact (@drawGlyph_outside plainVg unit area10 badGlyph (point.mk 11 5) Hout).
Defined.

(** C9. For a glyph style whose shape is neither [CircleGlyph] nor
    [RingGlyph] nor an uppercase letter code, [drawGlyph] at a point inside
    the draw area panics with the message ["Invalid GlyphShape: "] followed
    by the shape in decimal.  Before the panic it has set the line style and
    the color, and nothing else: no command that paints was issued. *)
Theorem drawGlyph_invalid_shape `{Vg} {Canvas} (da : drawArea Canvas)
    (sty : GlyphStyle) (pt : point) :
  drawArea.contains da pt = true ->
  GlyphStyle.Shape sty <> CircleGlyph ->
  GlyphStyle.Shape sty <> RingGlyph ->
  ~ (65 <= GlyphStyle.Shape sty <= 90)%N ->
  panicked (drawGlyph da sty pt)
  = Some (PanicString ("Invalid GlyphShape: "
            ++ NilZero.string_of_uint (N.to_uint (GlyphStyle.Shape sty)))%string) /\
  issued (drawGlyph da sty pt)
  = [SetColor None; SetLineWidth (vg_Points (1 # 2)); SetLineDash [] 0;
     SetColor (GlyphStyle.Color sty)] /\
  forallb (fun c => negb (paints c)) (issued (drawGlyph da sty pt)) = true.
Proof.
  intros Hin Hc Hr Hl. unfold drawGlyph. rewrite Hin. simpl negb. cbv iota.
  apply N.eqb_neq in Hc. apply N.eqb_neq in Hr. rewrite Hc, Hr.
  assert (Hletter : N.leb 65 (GlyphStyle.Shape sty)
                    && N.leb (GlyphStyle.Shape sty) 90 = false).
  { apply andb_false_iff.
    destruct (N.leb 65 (GlyphStyle.Shape sty)) eqn:E1; [right|left; reflexivity].
    destruct (N.leb (GlyphStyle.Shape sty) 90) eqn:E2; [|reflexivity].
    apply N.leb_le in E1. apply N.leb_le in E2. exfalso. apply Hl. split; assumption. }
  rewrite Hletter. repeat split.
Qed.

Lemma drawGlyph_invalid_shape_witness :
  panicked (drawGlyph area10 badGlyph (point.mk 5 5))
  = Some (PanicString "Invalid GlyphShape: 200").
Proof.
  refine (proj1 (@drawGlyph_invalid_shape plainVg unit area10 badGlyph
                   (point.mk 5 5) _ _ _ _)).
  - vm_compute. reflexivity.
  - discriminate.
  - discriminate.
  - intros [_ Hle]. vm_compute in Hle. apply Hle. reflexivity.
Defined.

(** ** Squish *)

(** Both running extremes are finite once the loop has run over a box. *)
Lemma squishX_step_finite {Canvas} (da : drawArea Canvas) e b :
  lo_edge e <> NegInf -> hi_edge e <> PosInf ->
  (exists q, lo_edge (drawArea.squishX_step da e b) = Fin q) /\
  (exists q, hi_edge (drawArea.squishX_step da e b) = Fin q).
Proof.
  intros Hlo Hhi. unfold drawArea.squishX_step.
  destruct e as [la lo ha hi]; simpl in *.
  destruct lo as [|lo|]; [congruence| |]; destruct hi as [|hi|]; try congruence;
    simpl;
    repeat match goal with
           | |- context [if Qltb ?a ?b then _ else _] => destruct (Qltb a b); simpl
           | |- context [if Qgtb ?a ?b then _ else _] => destruct (Qgtb a b); simpl
           end;
    split; eexists; reflexivity.
Qed.

Lemma squishX_fold_bounded {Canvas} (da : drawArea Canvas) boxes : forall e,
  lo_edge e <> NegInf /\ hi_edge e <> PosInf ->
  lo_edge (fold_left (drawArea.squishX_step da) boxes e) <> NegInf /\
  hi_edge (fold_left (drawArea.squishX_step da) boxes e) <> PosInf.
Proof.
  induction boxes as [|b boxes IH]; intros e He; [exact He|].
  simpl. apply IH. destruct He as [Hlo Hhi].
  destruct (squishX_step_finite da e b Hlo Hhi) as [[q1 E1] [q2 E2]].
  rewrite E1, E2. split; discriminate.
Qed.

Lemma squishX_loop_finite {Canvas} (da : drawArea Canvas) boxes :
  exists minx maxx,
    lo_edge (squishX_extremes da boxes) = Fin minx /\
    hi_edge (squishX_extremes da boxes) = Fin maxx.
Proof.
  unfold squishX_extremes. rewrite fold_left_app.
  set (e := fold_left _ boxes _).
  assert (He : lo_edge e <> NegInf /\ hi_edge e <> PosInf).
  { subst e. apply squishX_fold_bounded. split; discriminate. }
  destruct He as [Hlo Hhi]. simpl.
  destruct (squishX_step_finite da e glyphBox.zero Hlo Hhi) as [[q1 E1] [q2 E2]].
  set (e1 := drawArea.squishX_step da e glyphBox.zero) in *.
  assert (Hlo1 : lo_edge e1 <> NegInf) by (rewrite E1; discriminate).
  assert (Hhi1 : hi_edge e1 <> PosInf) by (rewrite E2; discriminate).
  destruct (squishX_step_finite da e1 unitBoxX Hlo1 Hhi1) as [[q3 E3] [q4 E4]].
  exists q3, q4. split; assumption.
Qed.

(** [squishX] on a non-empty list is the closed form applied to the extremes
    the loop ends with. *)
Lemma squishX_cons {Canvas} (da : drawArea Canvas) b boxes :
  exists minx maxx,
    lo_edge (squishX_extremes da (b :: boxes)) = Fin minx /\
    hi_edge (squishX_extremes da (b :: boxes)) = Fin maxx /\
    drawArea.squishX da (b :: boxes)
    = drawArea.squishX_solve da
        (lo_anchor (squishX_extremes da (b :: boxes)))
        (hi_anchor (squishX_extremes da (b :: boxes))) minx maxx.
Proof.
  destruct (squishX_loop_finite da (b :: boxes)) as (minx & maxx & E1 & E2).
  exists minx, maxx. split; [exact E1|]. split; [exact E2|].
  unfold drawArea.squishX. fold unitBoxX.
  change (fold_left (drawArea.squishX_step da)
            ((b :: boxes) ++ [glyphBox.zero; unitBoxX]) drawArea.extremes0)
    with (squishX_extremes da (b :: boxes)).
  cbv zeta. rewrite E1, E2. reflexivity.
Qed.

(** What the closed form achieves: the new mapping sends the anchor [left]
    to [l = min.x + (min.x - minx)] and the anchor [right] to
    [r = max.x - (maxx - max.x)], for the clamped [minx] and [maxx]. *)
Lemma squishX_solve_anchors {Canvas} (da : drawArea Canvas) left right minx maxx :
  ~ left == right ->
  let da' := drawArea.squishX_solve da left right minx maxx in
  let minx' := if Qgeb minx (point.x (drawArea.min da))
               then point.x (drawArea.min da) else minx in
  let maxx' := if Qleb maxx (point.x (drawArea.max da))
               then point.x (drawArea.max da) else maxx in
  drawArea.x da' left
    == point.x (drawArea.min da) + (point.x (drawArea.min da) - minx') /\
  drawArea.x da' right
    == point.x (drawArea.max da) - (maxx' - point.x (drawArea.max da)).
Proof.
  intros Hne da' minx' maxx'. subst da'.
  unfold drawArea.squishX_solve. fold minx' maxx'.
  unfold drawArea.x, drawArea.max, drawArea.min, rect.max. simpl.
  assert (Hd : ~ left - right == 0) by (intro E; apply Hne; lra).
  split; field; exact Hd.
Qed.

(** The four variables after one iteration, one at a time. *)
Lemma squishX_step_fields {Canvas} (da : drawArea Canvas) e b :
  let e' := drawArea.squishX_step da e b in
  lo_edge e' = (if lt_xlen (leftEdge da b) (lo_edge e)
                then Fin (leftEdge da b) else lo_edge e) /\
  lo_anchor e' = (if lt_xlen (leftEdge da b) (lo_edge e)
                  then glyphBox.x b else lo_anchor e) /\
  hi_edge e' = (if gt_xlen (rightEdge da b) (hi_edge e)
                then Fin (rightEdge da b) else hi_edge e) /\
  hi_anchor e' = (if gt_xlen (rightEdge da b) (hi_edge e)
                  then glyphBox.x b else hi_anchor e).
Proof.
  unfold drawArea.squishX_step, leftEdge, rightEdge. cbv zeta.
  destruct (lt_xlen _ (lo_edge e)); simpl;
    destruct (gt_xlen _ (hi_edge e)); simpl; repeat split.
Qed.

(** Boxes that lie strictly inside the bounds keep the running extremes
    strictly inside. *)
Lemma squishX_fold_strict {Canvas} (da : drawArea Canvas) boxes : forall e,
  (forall b, In b boxes ->
     point.x (drawArea.min da) < leftEdge da b /\
     rightEdge da b < point.x (drawArea.max da)) ->
  lo_above (point.x (drawArea.min da)) (lo_edge e) ->
  hi_below (point.x (drawArea.max da)) (hi_edge e) ->
  lo_above (point.x (drawArea.min da))
           (lo_edge (fold_left (drawArea.squishX_step da) boxes e)) /\
  hi_below (point.x (drawArea.max da))
           (hi_edge (fold_left (drawArea.squishX_step da) boxes e)).
Proof.
  induction boxes as [|b boxes IH]; intros e Hb Hlo Hhi; [split; assumption|].
  simpl. destruct (Hb b (or_introl eq_refl)) as [HL HR].
  destruct (squishX_step_fields da e b) as (E1 & _ & E3 & _).
  apply IH.
  - intros b' Hb'. apply Hb. right. exact Hb'.
  - rewrite E1. destruct (lt_xlen _ _); [exact HL|exact Hlo].
  - rewrite E3. destruct (gt_xlen _ _); [exact HR|exact Hhi].
Qed.

(** Where the claim of C3 does hold: on an area of positive width, boxes
    whose footprints lie strictly inside the bounds leave the extremes to the
    two appended boxes, and [squishX] returns the rectangle it was given. *)
Lemma squishX_strictly_inside {Canvas} (da : drawArea Canvas) boxes :
  0 < point.x (drawArea.size da) ->
  (forall b, In b boxes ->
     point.x (drawArea.min da) < leftEdge da b /\
     rightEdge da b < point.x (drawArea.max da)) ->
  rect.eq (drawArea.rect (drawArea.squishX da boxes)) (drawArea.rect da).
Proof.
  intros Hsz Hb.
  assert (Hrefl : rect.eq (drawArea.rect da) (drawArea.rect da))
    by (repeat split; reflexivity).
  destruct boxes as [|b0 boxes0]; [exact Hrefl|].
  destruct (squishX_cons da b0 boxes0) as (minx & maxx & E1 & E2 & ->).
  revert E1 E2. unfold squishX_extremes. rewrite fold_left_app.
  set (e := fold_left _ (b0 :: boxes0) _).
  destruct (@squishX_fold_strict _ da (b0 :: boxes0) drawArea.extremes0 Hb I I)
    as [Hlo Hhi].
  fold e in Hlo, Hhi. simpl fold_left.
  destruct (squishX_step_fields da e glyphBox.zero) as (Z1 & Z2 & Z3 & Z4).
  set (e1 := drawArea.squishX_step da e glyphBox.zero) in *.
  destruct (squishX_step_fields da e1 unitBoxX) as (U1 & U2 & U3 & U4).
  set (e2 := drawArea.squishX_step da e1 unitBoxX) in *.
  assert (Hmax : point.x (drawArea.max da)
                 == point.x (drawArea.min da) + point.x (drawArea.size da))
    by (unfold drawArea.max, drawArea.min, drawArea.size, rect.max; simpl; reflexivity).
  assert (LZ : leftEdge da glyphBox.zero == point.x (drawArea.min da))
    by (unfold leftEdge, drawArea.x; simpl; ring).
  assert (RZ : rightEdge da glyphBox.zero == point.x (drawArea.min da))
    by (unfold rightEdge, drawArea.x; simpl; ring).
  assert (LU : leftEdge da unitBoxX == point.x (drawArea.max da))
    by (unfold leftEdge, drawArea.x; simpl; ring).
  assert (RU : rightEdge da unitBoxX == point.x (drawArea.max da))
    by (unfold rightEdge, drawArea.x; simpl; ring).
  (* the box at anchor 0 takes the minimum *)
  assert (T1 : lt_xlen (leftEdge da glyphBox.zero) (lo_edge e) = true).
  { destruct (lo_edge e) as [|q|]; simpl in *; [contradiction| |reflexivity].
    apply Qltb_spec. lra. }
  rewrite T1 in Z1, Z2.
  (* and the box at anchor 1 does not *)
  assert (T2 : lt_xlen (leftEdge da unitBoxX) (lo_edge e1) = false).
  { rewrite Z1. simpl. apply Qltb_false. lra. }
  rewrite T2 in U1, U2.
  (* the maximum after the box at anchor 0 is still strictly inside *)
  assert (Hhi1 : hi_below (point.x (drawArea.max da)) (hi_edge e1)).
  { rewrite Z3. destruct (gt_xlen _ _); [unfold hi_below; lra|exact Hhi]. }
  assert (T3 : gt_xlen (rightEdge da unitBoxX) (hi_edge e1) = true).
  { destruct (hi_edge e1) as [|q|]; simpl in *; [reflexivity| |contradiction].
    apply Qltb_spec. lra. }
  rewrite T3 in U3, U4.
  intros E1 E2. rewrite U1, Z1 in E1. rewrite U3 in E2.
  injection E1 as <-. injection E2 as <-.
  rewrite U2, Z2, U4.
  unfold drawArea.squishX_solve.
  assert (C1 : Qgeb (leftEdge da glyphBox.zero) (point.x (drawArea.min da)) = true)
    by (apply Qleb_spec; lra).
  assert (C2 : Qleb (rightEdge da unitBoxX) (point.x (drawArea.max da)) = true)
    by (apply Qleb_spec; lra).
  rewrite C1, C2. simpl.
  unfold rect.eq; simpl.
  unfold drawArea.max, drawArea.min, drawArea.size, rect.max; simpl.
  repeat split; try reflexivity; field.
Qed.

(** *** The closed form at anchors away from the ends *)

(** With an unclamped minimum, the footprint whose left edge was [minx] under
    the old mapping starts, under the new one, at
    [min.x - left * (max.x - min.x)]: on the original left edge only when the
    anchor [left] is 0.  Likewise the footprint whose right edge was [maxx]
    ends at [max.x + (1 - right) * (max.x - min.x)]. *)
Lemma squishX_solve_footprints {Canvas} (da : drawArea Canvas) left right minx maxx :
  ~ left == right ->
  Qgeb minx (point.x (drawArea.min da)) = false ->
  Qleb maxx (point.x (drawArea.max da)) = false ->
  let da' := drawArea.squishX_solve da left right minx maxx in
  drawArea.x da' left + (minx - drawArea.x da left)
    == point.x (drawArea.min da)
       - left * (point.x (drawArea.max da) - point.x (drawArea.min da)) /\
  drawArea.x da' right + (maxx - drawArea.x da right)
    == point.x (drawArea.max da)
       + (1 - right) * (point.x (drawArea.max da) - point.x (drawArea.min da)).
Proof.
  intros Hne Hmin Hmax da'.
  destruct (squishX_solve_anchors da minx maxx Hne) as [El Er].
  fold da' in El, Er. rewrite Hmin in El. rewrite Hmax in Er.
  rewrite El, Er. unfold drawArea.x. split; ring.
Qed.

(** C1, on [area10] (positive width) and the one box [threeQuarterLabel],
    whose footprint reaches from 3.5 to 11.5 and so exceeds the right bound
    10: under the area that [squishX] returns the footprint ends at 12.5.
    The box is not brought inside the original bounds. *)
Theorem squishX_overhang_remains :
  let da' := drawArea.squishX area10 [threeQuarterLabel] in
  0 < point.x (drawArea.size area10) /\
  point.x (drawArea.max area10) < rightEdge area10 threeQuarterLabel /\
  point.x (drawArea.min da') == 0 /\
  point.x (drawArea.size da') == 34 # 3 /\
  rightEdge da' threeQuarterLabel == 25 # 2 /\
  point.x (drawArea.max area10) < rightEdge da' threeQuarterLabel.
Proof.
  cbv zeta. repeat split; vm_compute; reflexivity.
Qed.

(** C2, on [area10] and the boxes [quarterLabel] and [threeQuarterLabel]:
    the loop ends with [left = 1/4], [minx = -1.5] (the left edge of
    [quarterLabel]), [right = 3/4] and [maxx = 11.5] (the right edge of
    [threeQuarterLabel]); the anchors differ and neither clamp fires.  Under
    the returned area the footprint of the left extreme starts at -2.5, not
    on the original left edge 0, and the footprint of the right extreme ends
    at 12.5, not on the original right edge 10. *)
Theorem squishX_extremes_misplaced :
  let boxes := [quarterLabel; threeQuarterLabel] in
  let e := squishX_extremes area10 boxes in
  let da' := drawArea.squishX area10 boxes in
  (exists minx maxx,
     lo_edge e = Fin minx /\ hi_edge e = Fin maxx /\
     minx == leftEdge area10 quarterLabel /\
     maxx == rightEdge area10 threeQuarterLabel /\
     Qgeb minx (point.x (drawArea.min area10)) = false /\
     Qleb maxx (point.x (drawArea.max area10)) = false) /\
  lo_anchor e == glyphBox.x quarterLabel /\
  hi_anchor e == glyphBox.x threeQuarterLabel /\
  ~ lo_anchor e == hi_anchor e /\
  leftEdge da' quarterLabel == - (5 # 2) /\
  ~ leftEdge da' quarterLabel == point.x (drawArea.min area10) /\
  rightEdge da' threeQuarterLabel == 25 # 2 /\
  ~ rightEdge da' threeQuarterLabel == point.x (drawArea.max area10).
Proof.
  cbv zeta. split.
  - eexists. eexists.
    split; [vm_compute; reflexivity|]. split; [vm_compute; reflexivity|].
    repeat split; vm_compute; reflexivity.
  - repeat split; try (vm_compute; reflexivity);
      intro E; vm_compute in E; discriminate E.
Qed.

(** C3, on [area10] and the one box [touchingLabel], whose footprint [0, 5]
    lies within the bounds [0, 10]: [squishX] returns a rectangle with
    [min.x = -10/3] and [size.x = 40/3], not the original one, and under the
    returned area the footprint starts at -2.5, outside the original
    bounds. *)
Theorem squishX_touching_box_moves :
  let da' := drawArea.squishX area10 [touchingLabel] in
  point.x (drawArea.min area10) <= leftEdge area10 touchingLabel /\
  rightEdge area10 touchingLabel <= point.x (drawArea.max area10) /\
  point.x (drawArea.min da') == - (10 # 3) /\
  point.x (drawArea.size da') == 40 # 3 /\
  ~ rect.eq (drawArea.rect da') (drawArea.rect area10) /\
  leftEdge da' touchingLabel == - (5 # 2) /\
  leftEdge da' touchingLabel < point.x (drawArea.min area10).
Proof.
  cbv zeta.
  repeat split; try (vm_compute; reflexivity).
  - vm_compute. discriminate.
  - vm_compute. discriminate.
  - intros [E _]. vm_compute in E. discriminate E.
Qed.

(** ** Intersections with an axis-parallel clipping line *)

(** A value between two values on the same side of [k] is on that side. *)
Lemma between_gt (t u v k : Q) :
  0 <= t -> t <= 1 -> k < u -> k < v -> k < (v - u) * t + u.
Proof. intros. destruct (Qlt_le_dec v u); nra. Qed.

Lemma between_lt (t u v k : Q) :
  0 <= t -> t <= 1 -> u < k -> v < k -> (v - u) * t + u < k.
Proof. intros. destruct (Qlt_le_dec v u); nra. Qed.

(** A quotient of a part by the whole lies in the unit interval. *)
Lemma part_of_whole (n d : Q) :
  (0 <= n /\ n <= d \/ d <= n /\ n <= 0) -> ~ d == 0 ->
  0 <= n / d /\ n / d <= 1.
Proof.
  intros Hnd Hd.
  assert (E : n / d * d == n) by (field; exact Hd).
  set (t := n / d) in *. clearbody t.
  destruct Hnd as [[H0 H1]|[H0 H1]]; split; nra.
Qed.

(** For a vertical clipping line at [cx] that separates [p0] from [p1], the
    intersection lies on the line and between the two points. *)
Lemma isect_vertical (p0 p1 : point) (cx cy nx : Q) :
  ~ nx == 0 ->
  (point.x p0 <= cx /\ cx <= point.x p1 \/ point.x p1 <= cx /\ cx <= point.x p0) ->
  ~ point.x p0 == point.x p1 ->
  point.x (isect p0 p1 (point.mk cx cy) (point.mk nx 0)) == cx /\
  forall k,
    (k < point.y p0 -> k < point.y p1 ->
     k < point.y (isect p0 p1 (point.mk cx cy) (point.mk nx 0))) /\
    (point.y p0 < k -> point.y p1 < k ->
     point.y (isect p0 p1 (point.mk cx cy) (point.mk nx 0)) < k).
Proof.
  intros Hn Hs Hne.
  destruct p0 as [x0 y0], p1 as [x1 y1]; simpl in *.
  assert (Hd : ~ x0 - x1 == 0) by (intro E; apply Hne; lra).
  unfold isect, point.dot, point.minus, point.scale, point.plus; simpl.
  assert (Et : ((x0 - cx) * nx + (y0 - cy) * 0) / ((x0 - x1) * nx + (y0 - y1) * 0)
               == (x0 - cx) / (x0 - x1)) by (field; split; assumption).
  destruct (@part_of_whole (x0 - cx) (x0 - x1)) as [T0 T1]; [lra|exact Hd|].
  rewrite <- Et in T0, T1.
  split; [field; split; assumption|].
  intro k; split; intros; [apply between_gt|apply between_lt]; assumption.
Qed.

(** The same for a horizontal clipping line at [cy]. *)
Lemma isect_horizontal (p0 p1 : point) (cx cy ny : Q) :
  ~ ny == 0 ->
  (point.y p0 <= cy /\ cy <= point.y p1 \/ point.y p1 <= cy /\ cy <= point.y p0) ->
  ~ point.y p0 == point.y p1 ->
  point.y (isect p0 p1 (point.mk cx cy) (point.mk 0 ny)) == cy /\
  forall k,
    (k < point.x p0 -> k < point.x p1 ->
     k < point.x (isect p0 p1 (point.mk cx cy) (point.mk 0 ny))) /\
    (point.x p0 < k -> point.x p1 < k ->
     point.x (isect p0 p1 (point.mk cx cy) (point.mk 0 ny)) < k).
Proof.
  intros Hn Hs Hne.
  destruct p0 as [x0 y0], p1 as [x1 y1]; simpl in *.
  assert (Hd : ~ y0 - y1 == 0) by (intro E; apply Hne; lra).
  unfold isect, point.dot, point.minus, point.scale, point.plus; simpl.
  assert (Et : ((x0 - cx) * 0 + (y0 - cy) * ny) / ((x0 - x1) * 0 + (y0 - y1) * ny)
               == (y0 - cy) / (y0 - y1)) by (field; split; assumption).
  destruct (@part_of_whole (y0 - cy) (y0 - y1)) as [T0 T1]; [lra|exact Hd|].
  rewrite <- Et in T0, T1.
  split; [field; split; assumption|].
  intro k; split; intros; [apply between_gt|apply between_lt]; assumption.
Qed.

(** ** The four-stage pipeline on a polyline outside the area *)

Lemma slop_pos : 0 < slop.
Proof. reflexivity. Qed.

(** The membership tests as inequalities. *)
Lemma isLeft_true p c : isLeft p c = true <-> point.x p <= point.x c + slop.
Proof. apply Qleb_spec. Qed.
Lemma isLeft_false p c : isLeft p c = false <-> point.x c + slop < point.x p.
Proof. apply Qleb_false. Qed.
Lemma isRight_true p c : isRight p c = true <-> point.x c - slop <= point.x p.
Proof. apply Qleb_spec. Qed.
Lemma isRight_false p c : isRight p c = false <-> point.x p < point.x c - slop.
Proof. apply Qleb_false. Qed.
Lemma isBelow_true p c : isBelow p c = true <-> point.y p <= point.y c + slop.
Proof. apply Qleb_spec. Qed.
Lemma isBelow_false p c : isBelow p c = false <-> point.y c + slop < point.y p.
Proof. apply Qleb_false. Qed.
Lemma isAbove_true p c : isAbove p c = true <-> point.y c - slop <= point.y p.
Proof. apply Qleb_spec. Qed.
Lemma isAbove_false p c : isAbove p c = false <-> point.y p < point.y c - slop.
Proof. apply Qleb_false. Qed.

(** A clipping stage applied to every run of a list. *)
Lemma flat_map_clip_points in_ clipPt norm (Pre Post : point -> Prop) :
  (forall p, Pre p -> Post p) ->
  (forall a b, Pre a -> Pre b -> in_ a clipPt <> in_ b clipPt ->
               Post (isect a b clipPt norm)) ->
  forall lines, Forall (Forall Pre) lines ->
  Forall (Forall Post) (flat_map (clip in_ clipPt norm) lines).
Proof.
  intros HPP HI lines Hl. induction Hl as [|run lines Hrun _ IH]; simpl.
  - constructor.
  - apply Forall_app. split; [|exact IH].
    apply clip_points with (Pre := Pre); assumption.
Qed.

Lemma flat_map_clip_all_out in_ clipPt norm lines :
  Forall (Forall (fun p => in_ p clipPt = false)) lines ->
  flat_map (clip in_ clipPt norm) lines = [].
Proof.
  intros Hl. induction Hl as [|run lines Hrun _ IH]; simpl; [reflexivity|].
  rewrite IH, app_nil_r. apply clip_all_out.
  apply Forall_forall. exact Hrun.
Qed.

(** Two points that a tolerant test tells apart, both clear of its band of
    width [slop], lie on either side of the exact bound [c]. *)
Lemma apart_upper (u v c : Q) :
  (u <= c \/ c + slop < u) -> (v <= c \/ c + slop < v) ->
  Qleb u (c + slop) <> Qleb v (c + slop) ->
  (u <= c /\ c <= v \/ v <= c /\ c <= u) /\ ~ u == v.
Proof.
  pose proof slop_pos as Hs. intros Hu Hv Hne.
  destruct (Qleb u (c + slop)) eqn:Eu, (Qleb v (c + slop)) eqn:Ev;
    try congruence;
    first [apply Qleb_spec in Eu | apply Qleb_false in Eu];
    first [apply Qleb_spec in Ev | apply Qleb_false in Ev];
    split; lra.
Qed.

Lemma apart_lower (u v c : Q) :
  (c <= u \/ u < c - slop) -> (c <= v \/ v < c - slop) ->
  Qgeb u (c - slop) <> Qgeb v (c - slop) ->
  (u <= c /\ c <= v \/ v <= c /\ c <= u) /\ ~ u == v.
Proof.
  pose proof slop_pos as Hs. intros Hu Hv Hne. unfold Qgeb in Hne.
  destruct (Qleb (c - slop) u) eqn:Eu, (Qleb (c - slop) v) eqn:Ev;
    try congruence;
    first [apply Qleb_spec in Eu | apply Qleb_false in Eu];
    first [apply Qleb_spec in Ev | apply Qleb_false in Ev];
    split; lra.
Qed.

Section Outside.
Context {Canvas : Type} (da : drawArea Canvas).

Let a := point.x (drawArea.min da).
Let b := point.x (drawArea.max da).
Let c := point.y (drawArea.min da).
Let d := point.y (drawArea.max da).

Hypothesis width_nonneg : 0 <= point.x (drawArea.size da).
Hypothesis height_nonneg : 0 <= point.y (drawArea.size da).

Lemma area_ordered : a <= b /\ c <= d.
Proof.
  subst a b c d. revert width_nonneg height_nonneg.
  unfold drawArea.max, drawArea.min, drawArea.size, rect.max; simpl.
  intros; split; lra.
Qed.

Variable pts : list point.

(** Beyond the right edge: the first stage already returns no run. *)
Lemma outside_right :
  (forall p, In p pts -> isLeft p (point.mk b c) = false) ->
  clippedLines da pts = [].
Proof.
  intros Hout. unfold clippedLines. fold a b c d.
  rewrite (clip_all_out isLeft) by exact Hout. reflexivity.
Qed.

(** Below the bottom edge: the intersections of the first stage stay below,
    and the second stage returns no run. *)
Lemma outside_bottom :
  (forall p, In p pts -> clearOfBands da p) ->
  (forall p, In p pts -> isAbove p (point.mk a c) = false) ->
  clippedLines da pts = [].
Proof.
  intros Hclear Hout. unfold clippedLines. fold a b c d.
  set (Pre1 := fun p => point.y p < c - slop /\
                        (point.x p <= b \/ b + slop < point.x p)).
  assert (S1 : Forall (Forall (fun p => isAbove p (point.mk a c) = false))
                 (clip isLeft (point.mk b c) (point.mk (-1) 0) pts)).
  { apply clip_points with (Pre := Pre1).
    - intros p [Hy _]. apply isAbove_false. exact Hy.
    - intros p0 p1 [Hy0 Hx0] [Hy1 Hx1] Hne. apply isAbove_false.
      destruct (apart_upper Hx0 Hx1 Hne) as [Hs Hd].
      destruct (@isect_vertical p0 p1 b c (-1)) as [_ Hk];
        [discriminate|exact Hs|exact Hd|].
      apply Hk; assumption.
    - apply Forall_forall. intros p Hp. split.
      + apply isAbove_false. apply Hout. exact Hp.
      + apply (Hclear p Hp). }
  rewrite (@flat_map_clip_all_out _ _ _ _ S1). reflexivity.
Qed.

(** Left of the left edge: every point passes the first stage untouched, the
    intersections of the second stage stay on the left, and the third stage
    returns no run. *)
Lemma outside_left :
  (forall p, In p pts -> clearOfBands da p) ->
  (forall p, In p pts -> isRight p (point.mk a c) = false) ->
  clippedLines da pts = [].
Proof.
  pose proof slop_pos as Hslop. destruct area_ordered as [Hab Hcd].
  intros Hclear Hout. unfold clippedLines. fold a b c d.
  set (Pre1 := fun p => point.x p < a - slop /\
                        (c <= point.y p \/ point.y p < c - slop)).
  assert (S1 : Forall (Forall Pre1)
                 (clip isLeft (point.mk b c) (point.mk (-1) 0) pts)).
  { apply clip_points with (Pre := Pre1).
    - trivial.
    - intros p0 p1 [Hx0 _] [Hx1 _] Hne. exfalso. apply Hne.
      transitivity true; [|symmetry]; apply isLeft_true; simpl; lra.
    - apply Forall_forall. intros p Hp. split.
      + apply isRight_false. apply Hout. exact Hp.
      + apply (Hclear p Hp). }
  assert (S2 : Forall (Forall (fun p => isRight p (point.mk a c) = false))
                 (flat_map (clip isAbove (point.mk a c) (point.mk 0 (-1)))
                    (clip isLeft (point.mk b c) (point.mk (-1) 0) pts))).
  { apply flat_map_clip_points with (Pre := Pre1); [| |exact S1].
    - intros p [Hx _]. apply isRight_false. exact Hx.
    - intros p0 p1 [Hx0 Hy0] [Hx1 Hy1] Hne. apply isRight_false.
      destruct (apart_lower Hy0 Hy1 Hne) as [Hs Hd].
      destruct (@isect_horizontal p0 p1 a c (-1)) as [_ Hk];
        [discriminate|exact Hs|exact Hd|].
      apply Hk; assumption. }
  rewrite (@flat_map_clip_all_out _ _ _ _ S2). reflexivity.
Qed.

(** Above the top edge: the intersections of the first and of the third
    stage stay above, every point passes the second stage untouched, and the
    fourth stage returns no run. *)
Lemma outside_top :
  (forall p, In p pts -> clearOfBands da p) ->
  (forall p, In p pts -> isBelow p (point.mk a d) = false) ->
  clippedLines da pts = [].
Proof.
  pose proof slop_pos as Hslop. destruct area_ordered as [Hab Hcd].
  intros Hclear Hout. unfold clippedLines. fold a b c d.
  set (Pre1 := fun p => d + slop < point.y p /\
                        (point.x p <= b \/ b + slop < point.x p) /\
                        (a <= point.x p \/ point.x p < a - slop)).
  set (Pre2 := fun p => d + slop < point.y p /\
                        (a <= point.x p \/ point.x p < a - slop)).
  assert (S1 : Forall (Forall Pre2)
                 (clip isLeft (point.mk b c) (point.mk (-1) 0) pts)).
  { apply clip_points with (Pre := Pre1).
    - intros p (Hy & _ & Hx). split; assumption.
    - intros p0 p1 (Hy0 & Hx0 & _) (Hy1 & Hx1 & _) Hne.
      destruct (apart_upper Hx0 Hx1 Hne) as [Hs Hd].
      destruct (@isect_vertical p0 p1 b c (-1)) as [Ex Hk];
        [discriminate|exact Hs|exact Hd|].
      split; [apply Hk; assumption|]. left. rewrite Ex. exact Hab.
    - apply Forall_forall. intros p Hp.
      destruct (Hclear p Hp) as (Hr & _ & Hl). split; [|split; assumption].
      apply isBelow_false. apply Hout. exact Hp. }
  assert (S2 : Forall (Forall Pre2)
                 (flat_map (clip isAbove (point.mk a c) (point.mk 0 (-1)))
                    (clip isLeft (point.mk b c) (point.mk (-1) 0) pts))).
  { apply flat_map_clip_points with (Pre := Pre2); [| |exact S1].
    - trivial.
    - intros p0 p1 [Hy0 _] [Hy1 _] Hne. exfalso. apply Hne.
      transitivity true; [|symmetry]; apply isAbove_true; simpl; lra. }
  assert (S3 : Forall (Forall (fun p => isBelow p (point.mk a d) = false))
                 (flat_map (clip isRight (point.mk a c) (point.mk 1 0))
                    (flat_map (clip isAbove (point.mk a c) (point.mk 0 (-1)))
                       (clip isLeft (point.mk b c) (point.mk (-1) 0) pts)))).
  { apply flat_map_clip_points with (Pre := Pre2); [| |exact S2].
    - intros p [Hy _]. apply isBelow_false. exact Hy.
    - intros p0 p1 [Hy0 Hx0] [Hy1 Hx1] Hne. apply isBelow_false.
      destruct (apart_lower Hx0 Hx1 Hne) as [Hs Hd].
      destruct (@isect_vertical p0 p1 a c 1) as [_ Hk];
        [discriminate|exact Hs|exact Hd|].
      apply Hk; assumption. }
  rewrite (@flat_map_clip_all_out _ _ _ _ S3). reflexivity.
Qed.

End Outside.

(** A special case: on an area of non-negative size, a polyline whose points
    all fail the membership test of one common edge and keep clear of the
    tolerance bands just outside the right, bottom and left edges comes out
    of the four clipping stages as the empty list of runs. *)
Lemma clippedLines_beyond_edge `{Vg} {Canvas} (da : drawArea Canvas)
    (sty : LineStyle) (pts : list point) :
  0 <= point.x (drawArea.size da) ->
  0 <= point.y (drawArea.size da) ->
  (forall p, In p pts -> clearOfBands da p) ->
  ((forall p, In p pts ->
      isLeft p (point.mk (point.x (drawArea.max da)) (point.y (drawArea.min da)))
      = false) \/
   (forall p, In p pts ->
      isAbove p (point.mk (point.x (drawArea.min da)) (point.y (drawArea.min da)))
      = false) \/
   (forall p, In p pts ->
      isRight p (point.mk (point.x (drawArea.min da)) (point.y (drawArea.min da)))
      = false) \/
   (forall p, In p pts ->
      isBelow p (point.mk (point.x (drawArea.min da)) (point.y (drawArea.max da)))
      = false)) ->
  clippedLines da pts = [] /\ issued (strokeClippedLine da sty pts) = [].
Proof.
  intros Hw Hh Hclear Hout.
  assert (E : clippedLines da pts = []).
  { destruct Hout as [Hr|[Hb|[Hl|Ht]]].
    - apply outside_right. exact Hr.
    - apply outside_bottom; assumption.
    - apply outside_left; assumption.
    - apply outside_top; assumption. }
  split; [exact E|].
  unfold strokeClippedLine. rewrite E. reflexivity.
Qed.


(** Why the bands are excluded: a point inside the band of the right edge
    makes [isect] extrapolate beyond its segment.  Both points of
    [cornerPolyline] fail the test of the top edge, but the four stages
    return a run. *)
Lemma clippedLines_band_extrapolates :
  (forall p, In p cornerPolyline ->
     isBelow p (point.mk (point.x (drawArea.min area10))
                         (point.y (drawArea.max area10))) = false) /\
  clippedLines area10 cornerPolyline <> [].
Proof.
  split.
  - intros p [<-|[<-|[]]]; vm_compute; reflexivity.
  - vm_compute. discriminate.
Qed.

(** * Further properties of the package *)

(** ** Containment, center and crop *)

(** An area of non-negative size contains its two corners and its center:
    [contains] is inclusive on every bound. *)
Theorem contains_corners_center {Canvas} (da : drawArea Canvas) :
  0 <= point.x (drawArea.size da) ->
  0 <= point.y (drawArea.size da) ->
  drawArea.contains da (drawArea.min da) = true /\
  drawArea.contains da (drawArea.max da) = true /\
  drawArea.contains da (drawArea.center da) = true.
Proof.
  intros Hw Hh.
  unfold drawArea.contains, drawArea.center, Qgeb.
  unfold drawArea.max, drawArea.min, drawArea.size, rect.max in *. simpl.
  repeat split; repeat (apply andb_true_iff; split); apply Qleb_spec;
    try lra.
  all: set (w := point.x (rect.size (drawArea.rect da))) in *;
       set (h := point.y (rect.size (drawArea.rect da))) in *;
       set (x0 := point.x (rect.min (drawArea.rect da))) in *;
       set (y0 := point.y (rect.min (drawArea.rect da))) in *.
  - setoid_replace ((x0 + w - x0) / 2 + x0) with (x0 + w * (1 # 2)) by field. lra.
  - setoid_replace ((x0 + w - x0) / 2 + x0) with (x0 + w * (1 # 2)) by field. lra.
  - setoid_replace ((y0 + h - y0) / 2 + y0) with (y0 + h * (1 # 2)) by field. lra.
  - setoid_replace ((y0 + h - y0) / 2 + y0) with (y0 + h * (1 # 2)) by field. lra.
Qed.

Lemma contains_corners_center_witness :
  drawArea.contains area10 (drawArea.center area10) = true.
Proof.
  refine (proj2 (proj2 (@contains_corners_center unit area10 _ _)));
    vm_compute; discriminate.
Defined.

(** A point that the area contains passes the four membership tests of the
    clipper. *)
Lemma contains_passesAll {Canvas} (da : drawArea Canvas) (p : point) :
  drawArea.contains da p = true -> passesAll da p = true.
Proof.
  pose proof slop_pos as Hs.
  unfold drawArea.contains, passesAll, isLeft, isAbove, isRight, isBelow, Qgeb.
  simpl. intros H.
  repeat (apply andb_true_iff in H; destruct H as [H ?]).
  repeat match goal with E : Qleb _ _ = true |- _ => apply Qleb_spec in E end.
  repeat (apply andb_true_iff; split); apply Qleb_spec; lra.
Qed.

(** The four stages leave a polyline of two points or more alone when each
    of its points passes the four tests. *)
Lemma clippedLines_inside_runs {Canvas} (da : drawArea Canvas) (pts : list point) :
  (2 <= List.length pts)%nat ->
  (forall p, In p pts -> passesAll da p = true) ->
  clippedLines da pts = [pts].
Proof.
  intros Hlen Hin. unfold clippedLines.
  assert (H4 : forall p, In p pts ->
    (isLeft p (point.mk (point.x (drawArea.max da)) (point.y (drawArea.min da))) = true /\
     isAbove p (point.mk (point.x (drawArea.min da)) (point.y (drawArea.min da))) = true) /\
    (isRight p (point.mk (point.x (drawArea.min da)) (point.y (drawArea.min da))) = true /\
     isBelow p (point.mk (point.x (drawArea.min da)) (point.y (drawArea.max da))) = true)).
  { intros p Hp. specialize (Hin p Hp). unfold passesAll in Hin.
    repeat rewrite andb_true_iff in Hin. tauto. }
  rewrite (clip_all_in isLeft); [|exact Hlen|intros p Hp; apply (H4 p Hp)].
  cbn [flat_map]. rewrite app_nil_r.
  rewrite (clip_all_in isAbove); [|exact Hlen|intros p Hp; apply (H4 p Hp)].
  cbn [flat_map]. rewrite app_nil_r.
  rewrite (clip_all_in isRight); [|exact Hlen|intros p Hp; apply (H4 p Hp)].
  cbn [flat_map]. rewrite app_nil_r.
  apply (clip_all_in isBelow); [exact Hlen|intros p Hp; apply (H4 p Hp)].
Qed.

(** On a polyline of two points or more that the area contains, clipping
    changes nothing: [strokeClippedLine] does exactly what [strokeLine]
    does. *)
Theorem strokeClippedLine_contained `{Vg} {Canvas} (da : drawArea Canvas)
    (sty : LineStyle) (pts : list point) :
  (2 <= List.length pts)%nat ->
  (forall p, In p pts -> drawArea.contains da p = true) ->
  strokeClippedLine da sty pts = strokeLine da sty pts.
Proof.
  intros Hlen Hin. unfold strokeClippedLine.
  rewrite clippedLines_inside_runs.
  - destruct pts as [|p0 rest]; [simpl in Hlen; lia|].
    reflexivity.
  - exact Hlen.
  - intros p Hp. apply contains_passesAll. apply Hin. exact Hp.
Qed.

Lemma strokeClippedLine_contained_witness :
  strokeClippedLine area10 plainLine cornerToCorner
  = strokeLine area10 plainLine cornerToCorner.
Proof.
  apply (@strokeClippedLine_contained plainVg unit area10 plainLine cornerToCorner).
  - simpl. lia.
  - intros p [<-|[<-|[<-|[]]]]; vm_compute; reflexivity.
Defined.

(** [crop] moves the min corner by [(minx, miny)] and the max corner by
    [(maxx, maxy)], and keeps the canvas. *)
Theorem crop_corners {Canvas} (da : drawArea Canvas) (minx miny maxx maxy : Length) :
  let da' := drawArea.crop da minx miny maxx maxy in
  drawArea.canvas da' = drawArea.canvas da /\
  point.x (drawArea.min da') == point.x (drawArea.min da) + minx /\
  point.y (drawArea.min da') == point.y (drawArea.min da) + miny /\
  point.x (drawArea.max da') == point.x (drawArea.max da) + maxx /\
  point.y (drawArea.max da') == point.y (drawArea.max da) + maxy.
Proof.
  cbv zeta. unfold drawArea.crop, drawArea.max, drawArea.min, rect.max. simpl.
  repeat split; try reflexivity; ring.
Qed.

(** Two crops in a row are one crop by the sums of the offsets; so a crop
    is undone by the crop with the opposite offsets. *)
Theorem crop_crop {Canvas} (da : drawArea Canvas) (a b c d a' b' c' d' : Length) :
  rect.eq (drawArea.rect (drawArea.crop (drawArea.crop da a b c d) a' b' c' d'))
          (drawArea.rect (drawArea.crop da (a + a') (b + b') (c + c') (d + d'))) /\
  rect.eq (drawArea.rect (drawArea.crop (drawArea.crop da a b c d)
                                        (- a) (- b) (- c) (- d)))
          (drawArea.rect da).
Proof.
  unfold rect.eq, drawArea.crop, drawArea.max, drawArea.min, rect.max. simpl.
  repeat split; ring.
Qed.

(** ** More on squish *)

(** [squishX] changes nothing but the horizontal extent: the canvas, [min.y]
    and [size.y] of the result are those of the area it was given; and
    [squishY] changes nothing but the vertical extent. *)
Theorem squish_other_axis {Canvas} (da : drawArea Canvas) (boxes : list glyphBox) :
  (drawArea.canvas (drawArea.squishX da boxes) = drawArea.canvas da /\
   point.y (drawArea.min (drawArea.squishX da boxes)) = point.y (drawArea.min da) /\
   point.y (drawArea.size (drawArea.squishX da boxes)) = point.y (drawArea.size da)) /\
  (drawArea.canvas (drawArea.squishY da boxes) = drawArea.canvas da /\
   point.x (drawArea.min (drawArea.squishY da boxes)) = point.x (drawArea.min da) /\
   point.x (drawArea.size (drawArea.squishY da boxes)) = point.x (drawArea.size da)).
Proof.
  destruct boxes as [|b boxes]; [repeat split|].
  unfold drawArea.squishX, drawArea.squishY. cbv zeta.
  split.
  - destruct (lo_edge _); try (repeat split; fail);
      destruct (hi_edge _); repeat split.
  - destruct (lo_edge _); try (repeat split; fail);
      destruct (hi_edge _); repeat split.
Qed.

(** What [squishX] does achieve on a non-empty list of boxes whose extreme
    anchors differ: the returned mapping sends the anchor of the left extreme
    to [min.x + (min.x - minx)] and the anchor of the right extreme to
    [max.x - (maxx - max.x)], where [minx] and [maxx] are the extremes after
    the clamps. *)
Theorem squishX_sends_extremes {Canvas} (da : drawArea Canvas)
    (b : glyphBox) (boxes : list glyphBox) :
  let e := squishX_extremes da (b :: boxes) in
  let da' := drawArea.squishX da (b :: boxes) in
  ~ lo_anchor e == hi_anchor e ->
  exists minx maxx,
    lo_edge e = Fin minx /\ hi_edge e = Fin maxx /\
    drawArea.x da' (lo_anchor e)
      == point.x (drawArea.min da)
         + (point.x (drawArea.min da)
            - (if Qgeb minx (point.x (drawArea.min da))
               then point.x (drawArea.min da) else minx)) /\
    drawArea.x da' (hi_anchor e)
      == point.x (drawArea.max da)
         - ((if Qleb maxx (point.x (drawArea.max da))
             then point.x (drawArea.max da) else maxx)
            - point.x (drawArea.max da)).
Proof.
  intros e da' Hne.
  destruct (squishX_cons da b boxes) as (minx & maxx & E1 & E2 & E3).
  exists minx, maxx. split; [exact E1|]. split; [exact E2|].
  subst da'. rewrite E3. fold e.
  apply (squishX_solve_anchors da minx maxx Hne).
Qed.

Lemma squishX_sends_extremes_witness :
  exists minx maxx,
    lo_edge (squishX_extremes area10 [quarterLabel; threeQuarterLabel]) = Fin minx /\
    hi_edge (squishX_extremes area10 [quarterLabel; threeQuarterLabel]) = Fin maxx /\
    drawArea.x (drawArea.squishX area10 [quarterLabel; threeQuarterLabel])
               (lo_anchor (squishX_extremes area10 [quarterLabel; threeQuarterLabel]))
      == point.x (drawArea.min area10)
         + (point.x (drawArea.min area10)
            - (if Qgeb minx (point.x (drawArea.min area10))
               then point.x (drawArea.min area10) else minx)) /\
    drawArea.x (drawArea.squishX area10 [quarterLabel; threeQuarterLabel])
               (hi_anchor (squishX_extremes area10 [quarterLabel; threeQuarterLabel]))
      == point.x (drawArea.max area10)
         - ((if Qleb maxx (point.x (drawArea.max area10))
             then point.x (drawArea.max area10) else maxx)
            - point.x (drawArea.max area10)).
Proof.
  apply (@squishX_sends_extremes unit area10 quarterLabel [threeQuarterLabel]).
  intro E. vm_compute in E. discriminate E.
Defined.

(** The use the horizontal axis makes of [squishX]: one box, anchored at the
    right end of the axis, that reaches beyond the right bound but not to the
    left bound.  The returned mapping keeps the left end of the axis where it
    was and puts the right edge of the box exactly on the original right
    bound. *)
Theorem squishX_end_label {Canvas} (da : drawArea Canvas) (b : glyphBox) :
  0 < point.x (drawArea.size da) ->
  glyphBox.x b == 1 ->
  point.x (drawArea.min da) < leftEdge da b ->
  point.x (drawArea.max da) < rightEdge da b ->
  drawArea.x (drawArea.squishX da [b]) 0 == point.x (drawArea.min da) /\
  rightEdge (drawArea.squishX da [b]) b == point.x (drawArea.max da).
Proof.
  intros Hsz Hb HL HR.
  assert (Hmax : point.x (drawArea.max da)
                 == point.x (drawArea.min da) + point.x (drawArea.size da))
    by (unfold drawArea.max, drawArea.min, drawArea.size, rect.max; simpl; reflexivity).
  assert (LZ : leftEdge da glyphBox.zero == point.x (drawArea.min da))
    by (unfold leftEdge, drawArea.x; simpl; ring).
  assert (RZ : rightEdge da glyphBox.zero == point.x (drawArea.min da))
    by (unfold rightEdge, drawArea.x; simpl; ring).
  assert (LU : leftEdge da unitBoxX == point.x (drawArea.max da))
    by (unfold leftEdge, drawArea.x; simpl; ring).
  assert (RU : rightEdge da unitBoxX == point.x (drawArea.max da))
    by (unfold rightEdge, drawArea.x; simpl; ring).
  destruct (squishX_cons da b []) as (minx & maxx & E1 & E2 & E3).
  revert E1 E2 E3. unfold squishX_extremes. simpl fold_left.
  destruct (squishX_step_fields da drawArea.extremes0 b) as (B1 & B2 & B3 & B4).
  set (e0 := drawArea.squishX_step da drawArea.extremes0 b) in *.
  unfold drawArea.extremes0 in B1, B2, B3, B4.
  cbn [lo_edge hi_edge lo_anchor hi_anchor lt_xlen gt_xlen] in B1, B2, B3, B4.
  destruct (squishX_step_fields da e0 glyphBox.zero) as (Z1 & Z2 & Z3 & Z4).
  set (e1 := drawArea.squishX_step da e0 glyphBox.zero) in *.
  destruct (squishX_step_fields da e1 unitBoxX) as (U1 & U2 & U3 & U4).
  set (e2 := drawArea.squishX_step da e1 unitBoxX) in *.
  assert (T1 : lt_xlen (leftEdge da glyphBox.zero) (lo_edge e0) = true)
    by (rewrite B1; apply Qltb_spec; lra).
  assert (T2 : gt_xlen (rightEdge da glyphBox.zero) (hi_edge e0) = false)
    by (rewrite B3; apply Qltb_false; lra).
  rewrite T1 in Z1, Z2. rewrite T2 in Z3, Z4.
  assert (T3 : lt_xlen (leftEdge da unitBoxX) (lo_edge e1) = false)
    by (rewrite Z1; apply Qltb_false; lra).
  assert (T4 : gt_xlen (rightEdge da unitBoxX) (hi_edge e1) = false)
    by (rewrite Z3, B3; apply Qltb_false; lra).
  rewrite T3 in U1, U2. rewrite T4 in U3, U4.
  rewrite U1, Z1, U3, Z3, B3, U2, Z2, U4, Z4, B4.
  intros E1 E2 E3. injection E1 as <-. injection E2 as <-.
  change (glyphBox.x glyphBox.zero) with 0 in E3.
  assert (Hne : ~ 0 == glyphBox.x b) by (rewrite Hb; discriminate).
  destruct (squishX_solve_anchors da (leftEdge da glyphBox.zero)
              (rightEdge da b) Hne) as [A0 A1].
  rewrite <- E3 in A0, A1.
  assert (C1 : Qgeb (leftEdge da glyphBox.zero) (point.x (drawArea.min da)) = true)
    by (apply Qleb_spec; lra).
  assert (C2 : Qleb (rightEdge da b) (point.x (drawArea.max da)) = false)
    by (apply Qleb_false; lra).
  rewrite C1 in A0. rewrite C2 in A1.
  split; [rewrite A0; ring|].
  unfold rightEdge at 1. rewrite A1.
  assert (Hx : drawArea.x da (glyphBox.x b) == point.x (drawArea.max da))
    by (unfold drawArea.x; rewrite Hb; ring).
  unfold rightEdge. rewrite Hx. ring.
Qed.

Lemma squishX_end_label_witness :
  drawArea.x (drawArea.squishX area10 [endLabel]) 0 == point.x (drawArea.min area10) /\
  rightEdge (drawArea.squishX area10 [endLabel]) endLabel
    == point.x (drawArea.max area10).
Proof.
  apply (@squishX_end_label unit area10 endLabel); vm_compute; reflexivity.
Defined.

(** Boxes whose footprints lie strictly inside the bounds of an area of
    positive width are left alone: [squishX] returns the rectangle it was
    given. *)
Theorem squishX_inside_unchanged {Canvas} (da : drawArea Canvas)
    (boxes : list glyphBox) :
  0 < point.x (drawArea.size da) ->
  (forall b, In b boxes ->
     point.x (drawArea.min da) < leftEdge da b /\
     rightEdge da b < point.x (drawArea.max da)) ->
  rect.eq (drawArea.rect (drawArea.squishX da boxes)) (drawArea.rect da).
Proof. apply squishX_strictly_inside. Qed.

Lemma squishX_inside_unchanged_witness :
  rect.eq (drawArea.rect (drawArea.squishX area10 [middleLabel]))
          (drawArea.rect area10).
Proof.
  apply (@squishX_inside_unchanged unit area10 [middleLabel]).
  - vm_compute. reflexivity.
  - intros b [<-|[]]. split; vm_compute; reflexivity.
Defined.

(** ** Squish on the vertical axis *)

(** Both running extremes are finite once the loop has run over a box. *)
Lemma squishY_step_finite {Canvas} (da : drawArea Canvas) e b :
  lo_edge e <> NegInf -> hi_edge e <> PosInf ->
  (exists q, lo_edge (drawArea.squishY_step da e b) = Fin q) /\
  (exists q, hi_edge (drawArea.squishY_step da e b) = Fin q).
Proof.
  intros Hlo Hhi. unfold drawArea.squishY_step.
  destruct e as [la lo ha hi]; simpl in *.
  destruct lo as [|lo|]; [congruence| |]; destruct hi as [|hi|]; try congruence;
    simpl;
    repeat match goal with
           | |- context [if Qltb ?a ?b then _ else _] => destruct (Qltb a b); simpl
           | |- context [if Qgtb ?a ?b then _ else _] => destruct (Qgtb a b); simpl
           end;
    split; eexists; reflexivity.
Qed.

Lemma squishY_fold_bounded {Canvas} (da : drawArea Canvas) boxes : forall e,
  lo_edge e <> NegInf /\ hi_edge e <> PosInf ->
  lo_edge (fold_left (drawArea.squishY_step da) boxes e) <> NegInf /\
  hi_edge (fold_left (drawArea.squishY_step da) boxes e) <> PosInf.
Proof.
  induction boxes as [|b boxes IH]; intros e He; [exact He|].
  simpl. apply IH. destruct He as [Hlo Hhi].
  destruct (squishY_step_finite da e b Hlo Hhi) as [[q1 E1] [q2 E2]].
  rewrite E1, E2. split; discriminate.
Qed.

Lemma squishY_loop_finite {Canvas} (da : drawArea Canvas) boxes :
  exists minx maxx,
    lo_edge (squishY_extremes da boxes) = Fin minx /\
    hi_edge (squishY_extremes da boxes) = Fin maxx.
Proof.
  unfold squishY_extremes. rewrite fold_left_app.
  set (e := fold_left _ boxes _).
  assert (He : lo_edge e <> NegInf /\ hi_edge e <> PosInf).
  { subst e. apply squishY_fold_bounded. split; discriminate. }
  destruct He as [Hlo Hhi]. simpl.
  destruct (squishY_step_finite da e glyphBox.zero Hlo Hhi) as [[q1 E1] [q2 E2]].
  set (e1 := drawArea.squishY_step da e glyphBox.zero) in *.
  assert (Hlo1 : lo_edge e1 <> NegInf) by (rewrite E1; discriminate).
  assert (Hhi1 : hi_edge e1 <> PosInf) by (rewrite E2; discriminate).
  destruct (squishY_step_finite da e1 unitBoxY Hlo1 Hhi1) as [[q3 E3] [q4 E4]].
  exists q3, q4. split; assumption.
Qed.

(** [squishY] on a non-empty list is the closed form applied to the extremes
    the loop ends with. *)
Lemma squishY_cons {Canvas} (da : drawArea Canvas) b boxes :
  exists minx maxx,
    lo_edge (squishY_extremes da (b :: boxes)) = Fin minx /\
    hi_edge (squishY_extremes da (b :: boxes)) = Fin maxx /\
    drawArea.squishY da (b :: boxes)
    = drawArea.squishY_solve da
        (lo_anchor (squishY_extremes da (b :: boxes)))
        (hi_anchor (squishY_extremes da (b :: boxes))) minx maxx.
Proof.
  destruct (squishY_loop_finite da (b :: boxes)) as (minx & maxx & E1 & E2).
  exists minx, maxx. split; [exact E1|]. split; [exact E2|].
  unfold drawArea.squishY. fold unitBoxY.
  change (fold_left (drawArea.squishY_step da)
            ((b :: boxes) ++ [glyphBox.zero; unitBoxY]) drawArea.extremes0)
    with (squishY_extremes da (b :: boxes)).
  cbv zeta. rewrite E1, E2. reflexivity.
Qed.

(** What the closed form achieves: the new mapping sends the anchor [bot]
    to [b = min.y + (min.y - miny)] and the anchor [top] to
    [t = max.y - (maxy - max.y)], for the clamped extremes. *)
Lemma squishY_solve_anchors {Canvas} (da : drawArea Canvas) left right minx maxx :
  ~ left == right ->
  let da' := drawArea.squishY_solve da left right minx maxx in
  let minx' := if Qgeb minx (point.y (drawArea.min da))
               then point.y (drawArea.min da) else minx in
  let maxx' := if Qleb maxx (point.y (drawArea.max da))
               then point.y (drawArea.max da) else maxx in
  drawArea.y da' left
    == point.y (drawArea.min da) + (point.y (drawArea.min da) - minx') /\
  drawArea.y da' right
    == point.y (drawArea.max da) - (maxx' - point.y (drawArea.max da)).
Proof.
  intros Hne da' minx' maxx'. subst da'.
  unfold drawArea.squishY_solve. fold minx' maxx'.
  unfold drawArea.y, drawArea.max, drawArea.min, rect.max. simpl.
  assert (Hd : ~ left - right == 0) by (intro E; apply Hne; lra).
  split; field; exact Hd.
Qed.

(** The four variables after one iteration, one at a time. *)
Lemma squishY_step_fields {Canvas} (da : drawArea Canvas) e b :
  let e' := drawArea.squishY_step da e b in
  lo_edge e' = (if lt_xlen (bottomEdge da b) (lo_edge e)
                then Fin (bottomEdge da b) else lo_edge e) /\
  lo_anchor e' = (if lt_xlen (bottomEdge da b) (lo_edge e)
                  then glyphBox.y b else lo_anchor e) /\
  hi_edge e' = (if gt_xlen (topEdge da b) (hi_edge e)
                then Fin (topEdge da b) else hi_edge e) /\
  hi_anchor e' = (if gt_xlen (topEdge da b) (hi_edge e)
                  then glyphBox.y b else hi_anchor e).
Proof.
  unfold drawArea.squishY_step, bottomEdge, topEdge. cbv zeta.
  destruct (lt_xlen _ (lo_edge e)); simpl;
    destruct (gt_xlen _ (hi_edge e)); simpl; repeat split.
Qed.

(** Boxes that lie strictly inside the bounds keep the running extremes
    strictly inside. *)
Lemma squishY_fold_strict {Canvas} (da : drawArea Canvas) boxes : forall e,
  (forall b, In b boxes ->
     point.y (drawArea.min da) < bottomEdge da b /\
     topEdge da b < point.y (drawArea.max da)) ->
  lo_above (point.y (drawArea.min da)) (lo_edge e) ->
  hi_below (point.y (drawArea.max da)) (hi_edge e) ->
  lo_above (point.y (drawArea.min da))
           (lo_edge (fold_left (drawArea.squishY_step da) boxes e)) /\
  hi_below (point.y (drawArea.max da))
           (hi_edge (fold_left (drawArea.squishY_step da) boxes e)).
Proof.
  induction boxes as [|b boxes IH]; intros e Hb Hlo Hhi; [split; assumption|].
  simpl. destruct (Hb b (or_introl eq_refl)) as [HL HR].
  destruct (squishY_step_fields da e b) as (E1 & _ & E3 & _).
  apply IH.
  - intros b' Hb'. apply Hb. right. exact Hb'.
  - rewrite E1. destruct (lt_xlen _ _); [exact HL|exact Hlo].
  - rewrite E3. destruct (gt_xlen _ _); [exact HR|exact Hhi].
Qed.

(** On an area of positive height, boxes
    whose footprints lie strictly inside the bounds leave the extremes to the
    two appended boxes, and [squishY] returns the rectangle it was given. *)
Lemma squishY_strictly_inside {Canvas} (da : drawArea Canvas) boxes :
  0 < point.y (drawArea.size da) ->
  (forall b, In b boxes ->
     point.y (drawArea.min da) < bottomEdge da b /\
     topEdge da b < point.y (drawArea.max da)) ->
  rect.eq (drawArea.rect (drawArea.squishY da boxes)) (drawArea.rect da).
Proof.
  intros Hsz Hb.
  assert (Hrefl : rect.eq (drawArea.rect da) (drawArea.rect da))
    by (repeat split; reflexivity).
  destruct boxes as [|b0 boxes0]; [exact Hrefl|].
  destruct (squishY_cons da b0 boxes0) as (minx & maxx & E1 & E2 & ->).
  revert E1 E2. unfold squishY_extremes. rewrite fold_left_app.
  set (e := fold_left _ (b0 :: boxes0) _).
  destruct (@squishY_fold_strict _ da (b0 :: boxes0) drawArea.extremes0 Hb I I)
    as [Hlo Hhi].
  fold e in Hlo, Hhi. simpl fold_left.
  destruct (squishY_step_fields da e glyphBox.zero) as (Z1 & Z2 & Z3 & Z4).
  set (e1 := drawArea.squishY_step da e glyphBox.zero) in *.
  destruct (squishY_step_fields da e1 unitBoxY) as (U1 & U2 & U3 & U4).
  set (e2 := drawArea.squishY_step da e1 unitBoxY) in *.
  assert (Hmax : point.y (drawArea.max da)
                 == point.y (drawArea.min da) + point.y (drawArea.size da))
    by (unfold drawArea.max, drawArea.min, drawArea.size, rect.max; simpl; reflexivity).
  assert (LZ : bottomEdge da glyphBox.zero == point.y (drawArea.min da))
    by (unfold bottomEdge, drawArea.y; simpl; ring).
  assert (RZ : topEdge da glyphBox.zero == point.y (drawArea.min da))
    by (unfold topEdge, drawArea.y; simpl; ring).
  assert (LU : bottomEdge da unitBoxY == point.y (drawArea.max da))
    by (unfold bottomEdge, drawArea.y; simpl; ring).
  assert (RU : topEdge da unitBoxY == point.y (drawArea.max da))
    by (unfold topEdge, drawArea.y; simpl; ring).
  (* the box at anchor 0 takes the minimum *)
  assert (T1 : lt_xlen (bottomEdge da glyphBox.zero) (lo_edge e) = true).
  { destruct (lo_edge e) as [|q|]; simpl in *; [contradiction| |reflexivity].
    apply Qltb_spec. lra. }
  rewrite T1 in Z1, Z2.
  (* and the box at anchor 1 does not *)
  assert (T2 : lt_xlen (bottomEdge da unitBoxY) (lo_edge e1) = false).
  { rewrite Z1. simpl. apply Qltb_false. lra. }
  rewrite T2 in U1, U2.
  (* the maximum after the box at anchor 0 is still strictly inside *)
  assert (Hhi1 : hi_below (point.y (drawArea.max da)) (hi_edge e1)).
  { rewrite Z3. destruct (gt_xlen _ _); [unfold hi_below; lra|exact Hhi]. }
  assert (T3 : gt_xlen (topEdge da unitBoxY) (hi_edge e1) = true).
  { destruct (hi_edge e1) as [|q|]; simpl in *; [reflexivity| |contradiction].
    apply Qltb_spec. lra. }
  rewrite T3 in U3, U4.
  intros E1 E2. rewrite U1, Z1 in E1. rewrite U3 in E2.
  injection E1 as <-. injection E2 as <-.
  rewrite U2, Z2, U4.
  unfold drawArea.squishY_solve.
  assert (C1 : Qgeb (bottomEdge da glyphBox.zero) (point.y (drawArea.min da)) = true)
    by (apply Qleb_spec; lra).
  assert (C2 : Qleb (topEdge da unitBoxY) (point.y (drawArea.max da)) = true)
    by (apply Qleb_spec; lra).
  rewrite C1, C2. simpl.
  unfold rect.eq; simpl.
  unfold drawArea.max, drawArea.min, drawArea.size, rect.max; simpl.
  repeat split; try reflexivity; field.
Qed.

(** The use the vertical axis makes of [squishY]: one box, anchored at the
    top end of the axis, that reaches beyond the top bound but not to the
    bottom bound.  The returned mapping keeps the bottom end of the axis where it
    was and puts the top edge of the box exactly on the original top
    bound. *)
Theorem squishY_end_label {Canvas} (da : drawArea Canvas) (b : glyphBox) :
  0 < point.y (drawArea.size da) ->
  glyphBox.y b == 1 ->
  point.y (drawArea.min da) < bottomEdge da b ->
  point.y (drawArea.max da) < topEdge da b ->
  drawArea.y (drawArea.squishY da [b]) 0 == point.y (drawArea.min da) /\
  topEdge (drawArea.squishY da [b]) b == point.y (drawArea.max da).
Proof.
  intros Hsz Hb HL HR.
  assert (Hmax : point.y (drawArea.max da)
                 == point.y (drawArea.min da) + point.y (drawArea.size da))
    by (unfold drawArea.max, drawArea.min, drawArea.size, rect.max; simpl; reflexivity).
  assert (LZ : bottomEdge da glyphBox.zero == point.y (drawArea.min da))
    by (unfold bottomEdge, drawArea.y; simpl; ring).
  assert (RZ : topEdge da glyphBox.zero == point.y (drawArea.min da))
    by (unfold topEdge, drawArea.y; simpl; ring).
  assert (LU : bottomEdge da unitBoxY == point.y (drawArea.max da))
    by (unfold bottomEdge, drawArea.y; simpl; ring).
  assert (RU : topEdge da unitBoxY == point.y (drawArea.max da))
    by (unfold topEdge, drawArea.y; simpl; ring).
  destruct (squishY_cons da b []) as (minx & maxx & E1 & E2 & E3).
  revert E1 E2 E3. unfold squishY_extremes. simpl fold_left.
  destruct (squishY_step_fields da drawArea.extremes0 b) as (B1 & B2 & B3 & B4).
  set (e0 := drawArea.squishY_step da drawArea.extremes0 b) in *.
  unfold drawArea.extremes0 in B1, B2, B3, B4.
  cbn [lo_edge hi_edge lo_anchor hi_anchor lt_xlen gt_xlen] in B1, B2, B3, B4.
  destruct (squishY_step_fields da e0 glyphBox.zero) as (Z1 & Z2 & Z3 & Z4).
  set (e1 := drawArea.squishY_step da e0 glyphBox.zero) in *.
  destruct (squishY_step_fields da e1 unitBoxY) as (U1 & U2 & U3 & U4).
  set (e2 := drawArea.squishY_step da e1 unitBoxY) in *.
  assert (T1 : lt_xlen (bottomEdge da glyphBox.zero) (lo_edge e0) = true)
    by (rewrite B1; apply Qltb_spec; lra).
  assert (T2 : gt_xlen (topEdge da glyphBox.zero) (hi_edge e0) = false)
    by (rewrite B3; apply Qltb_false; lra).
  rewrite T1 in Z1, Z2. rewrite T2 in Z3, Z4.
  assert (T3 : lt_xlen (bottomEdge da unitBoxY) (lo_edge e1) = false)
    by (rewrite Z1; apply Qltb_false; lra).
  assert (T4 : gt_xlen (topEdge da unitBoxY) (hi_edge e1) = false)
    by (rewrite Z3, B3; apply Qltb_false; lra).
  rewrite T3 in U1, U2. rewrite T4 in U3, U4.
  rewrite U1, Z1, U3, Z3, B3, U2, Z2, U4, Z4, B4.
  intros E1 E2 E3. injection E1 as <-. injection E2 as <-.
  change (glyphBox.y glyphBox.zero) with 0 in E3.
  assert (Hne : ~ 0 == glyphBox.y b) by (rewrite Hb; discriminate).
  destruct (squishY_solve_anchors da (bottomEdge da glyphBox.zero)
              (topEdge da b) Hne) as [A0 A1].
  rewrite <- E3 in A0, A1.
  assert (C1 : Qgeb (bottomEdge da glyphBox.zero) (point.y (drawArea.min da)) = true)
    by (apply Qleb_spec; lra).
  assert (C2 : Qleb (topEdge da b) (point.y (drawArea.max da)) = false)
    by (apply Qleb_false; lra).
  rewrite C1 in A0. rewrite C2 in A1.
  split; [rewrite A0; ring|].
  unfold topEdge at 1. rewrite A1.
  assert (Hx : drawArea.y da (glyphBox.y b) == point.y (drawArea.max da))
    by (unfold drawArea.y; rewrite Hb; ring).
  unfold topEdge. rewrite Hx. ring.
Qed.

Lemma squishY_end_label_witness :
  drawArea.y (drawArea.squishY area10 [topLabel]) 0 == point.y (drawArea.min area10) /\
  topEdge (drawArea.squishY area10 [topLabel]) topLabel
    == point.y (drawArea.max area10).
Proof.
  apply (@squishY_end_label unit area10 topLabel); vm_compute; reflexivity.
Defined.

(** Boxes whose footprints lie strictly inside the bounds of an area of
    positive height are left alone: [squishY] returns the rectangle it was
    given. *)
Theorem squishY_inside_unchanged {Canvas} (da : drawArea Canvas)
    (boxes : list glyphBox) :
  0 < point.y (drawArea.size da) ->
  (forall b, In b boxes ->
     point.y (drawArea.min da) < bottomEdge da b /\
     topEdge da b < point.y (drawArea.max da)) ->
  rect.eq (drawArea.rect (drawArea.squishY da boxes)) (drawArea.rect da).
Proof. apply squishY_strictly_inside. Qed.

Lemma squishY_inside_unchanged_witness :
  rect.eq (drawArea.rect (drawArea.squishY area10 [halfwayLabel]))
          (drawArea.rect area10).
Proof.
  apply (@squishY_inside_unchanged unit area10 [halfwayLabel]).
  - vm_compute. reflexivity.
  - intros b [<-|[]]. split; vm_compute; reflexivity.
Defined.

(** ** More on the clipper *)

(** The closed form of [isect] solves the equation of the clipping line. *)
Lemma isect_dot_zero (p0 p1 clipPt norm : point) :
  ~ point.dot (point.minus p0 p1) norm == 0 ->
  point.dot (point.minus (isect p0 p1 clipPt norm) clipPt) norm == 0.
Proof.
  destruct p0 as [x0 y0], p1 as [x1 y1], clipPt as [cx cy], norm as [nx ny].
  unfold isect, point.dot, point.minus, point.scale, point.plus. simpl.
  intros Hd. field. exact Hd.
Qed.

(** Whenever the segment is not parallel to the clipping line, the point
    that [isect] returns lies on the clipping line: its offset from the clip
    point is orthogonal to the normal. *)
Theorem isect_on_line (p0 p1 clipPt norm : point) :
  ~ point.dot (point.minus p0 p1) norm == 0 ->
  point.dot (point.minus (isect p0 p1 clipPt norm) clipPt) norm == 0.
Proof. apply isect_dot_zero. Qed.

Lemma isect_on_line_witness :
  point.dot (point.minus (isect (point.mk 0 0) (point.mk 10 0)
                                (point.mk 5 0) (point.mk 1 0))
                         (point.mk 5 0)) (point.mk 1 0) == 0.
Proof.
  apply isect_on_line. intro E. vm_compute in E. discriminate E.
Defined.

Section ClipSound.
Variable in_ : point -> point -> bool.
Variables clipPt norm : point.
Variable Post : point -> Prop.
Hypothesis in_Post : forall p, in_ p clipPt = true -> Post p.
Hypothesis isect_Post : forall a b,
  in_ a clipPt <> in_ b clipPt -> Post (isect a b clipPt norm).

(** A point enters a run only if it passes the test or is an intersection
    computed for two points that the test tells apart. *)
Lemma clip_loop_sound rest : forall cur l lines,
  Forall Post l -> Forall (Forall Post) lines ->
  Forall Post (fst (clip_loop in_ clipPt norm cur rest l lines)) /\
  Forall (Forall Post) (snd (clip_loop in_ clipPt norm cur rest l lines)).
Proof.
  induction rest as [|next rest' IH]; intros cur l lines Hl Hls; simpl;
    [split; assumption|].
  assert (P1 : forall q, Post q -> Forall Post [q]) by (repeat constructor; assumption).
  pose proof (@in_Post cur) as Hc. pose proof (@in_Post next) as Hn.
  pose proof (@isect_Post cur next) as Hx.
  destruct (in_ cur clipPt), (in_ next clipPt); simpl;
    destruct rest'; apply IH; try assumption; try constructor;
    repeat (apply Forall_app; split; try assumption);
    try (apply P1; first [apply Hc; reflexivity | apply Hn; reflexivity
                         | apply Hx; discriminate]).
  all: try (constructor; [|constructor]).
  all: try (apply Forall_app; split; [assumption|]).
  all: constructor; [apply Hc; reflexivity|apply P1; apply Hx; discriminate].
Qed.

Lemma clip_sound pts : Forall (Forall Post) (clip in_ clipPt norm pts).
Proof.
  destruct pts as [|p rest]; [constructor|].
  unfold clip.
  destruct (@clip_loop_sound rest p [] []) as [Hl Hls];
    [constructor|constructor|].
  destruct (clip_loop in_ clipPt norm p rest [] []) as [l lines]; simpl in *.
  destruct (Nat.ltb 1 (List.length l)); [|exact Hls].
  apply Forall_app; split; [exact Hls|]. constructor; [exact Hl|constructor].
Qed.

End ClipSound.

(** Two lengths that a comparison with one bound tells apart differ. *)
Lemma Qleb_apart (u v k : Q) : Qleb u k <> Qleb v k -> ~ u == v.
Proof.
  intros Hne E. apply Hne.
  destruct (Qleb u k) eqn:Eu, (Qleb v k) eqn:Ev; try reflexivity;
    first [apply Qleb_spec in Eu | apply Qleb_false in Eu];
    first [apply Qleb_spec in Ev | apply Qleb_false in Ev]; lra.
Qed.

Lemma Qgeb_apart (u v k : Q) : Qgeb u k <> Qgeb v k -> ~ u == v.
Proof.
  unfold Qgeb. intros Hne E. apply Hne.
  destruct (Qleb k u) eqn:Eu, (Qleb k v) eqn:Ev; try reflexivity;
    first [apply Qleb_spec in Eu | apply Qleb_false in Eu];
    first [apply Qleb_spec in Ev | apply Qleb_false in Ev]; lra.
Qed.

(** The intersection with a vertical clipping line has the abscissa of the
    line, and the one with a horizontal clipping line its ordinate. *)
Lemma isect_abscissa (p0 p1 c : point) (nx : Q) :
  ~ nx == 0 -> ~ point.x p0 == point.x p1 ->
  point.x (isect p0 p1 c (point.mk nx 0)) == point.x c.
Proof.
  intros Hn Hne.
  assert (Hd : ~ point.dot (point.minus p0 p1) (point.mk nx 0) == 0).
  { unfold point.dot, point.minus; simpl. intro E. apply Hne.
    assert (E' : (point.x p0 - point.x p1) * nx == 0) by lra.
    apply Qmult_integral in E'. destruct E' as [E'|E']; [lra|contradiction]. }
  pose proof (@isect_dot_zero p0 p1 c _ Hd) as On.
  remember (isect p0 p1 c (point.mk nx 0)) as I eqn:EI. clear EI.
  unfold point.dot, point.minus in On; simpl in On.
  assert (E' : (point.x I - point.x c) * nx == 0) by lra.
  apply Qmult_integral in E'. destruct E' as [E'|E']; [lra|contradiction].
Qed.

Lemma isect_ordinate (p0 p1 c : point) (ny : Q) :
  ~ ny == 0 -> ~ point.y p0 == point.y p1 ->
  point.y (isect p0 p1 c (point.mk 0 ny)) == point.y c.
Proof.
  intros Hn Hne.
  assert (Hd : ~ point.dot (point.minus p0 p1) (point.mk 0 ny) == 0).
  { unfold point.dot, point.minus; simpl. intro E. apply Hne.
    assert (E' : (point.y p0 - point.y p1) * ny == 0) by lra.
    apply Qmult_integral in E'. destruct E' as [E'|E']; [lra|contradiction]. }
  pose proof (@isect_dot_zero p0 p1 c _ Hd) as On.
  remember (isect p0 p1 c (point.mk 0 ny)) as I eqn:EI. clear EI.
  unfold point.dot, point.minus in On; simpl in On.
  assert (E' : (point.y I - point.y c) * ny == 0) by lra.
  apply Qmult_integral in E'. destruct E' as [E'|E']; [lra|contradiction].
Qed.

(** One clipping stage is sound: for each of the four tests, with the normal
    that [strokeClippedLine] pairs it with and any clip point, every point
    of every run that [clip] returns passes the test. *)
Theorem clip_stage_sound (c : point) (pts : list point) :
  Forall (Forall (fun p => isLeft p c = true))
         (clip isLeft c (point.mk (-1) 0) pts) /\
  Forall (Forall (fun p => isAbove p c = true))
         (clip isAbove c (point.mk 0 (-1)) pts) /\
  Forall (Forall (fun p => isRight p c = true))
         (clip isRight c (point.mk 1 0) pts) /\
  Forall (Forall (fun p => isBelow p c = true))
         (clip isBelow c (point.mk 0 1) pts).
Proof.
  pose proof slop_pos as Hs.
  repeat split; apply clip_sound; try (intros p Hp; exact Hp); intros a b Hne.
  - apply isLeft_true. rewrite isect_abscissa; [lra|discriminate|].
    exact (@Qleb_apart _ _ _ Hne).
  - apply isAbove_true. rewrite isect_ordinate; [lra|discriminate|].
    exact (@Qgeb_apart _ _ _ Hne).
  - apply isRight_true. rewrite isect_abscissa; [lra|discriminate|].
    exact (@Qgeb_apart _ _ _ Hne).
  - apply isBelow_true. rewrite isect_ordinate; [lra|discriminate|].
    exact (@Qleb_apart _ _ _ Hne).
Qed.

Section ClipKeeps.
Variable in_ : point -> point -> bool.
Variables clipPt norm : point.

(** A point is in the open run or in a closed one. *)
Let covered (p : point) (st : list point * list (list point)) : Prop :=
  In p (fst st) \/ exists run, In run (snd st) /\ In p run.

(** The loop never drops a point it has collected. *)
Lemma clip_loop_covered_mono p rest : forall cur l lines,
  covered p (l, lines) ->
  covered p (clip_loop in_ clipPt norm cur rest l lines).
Proof.
  induction rest as [|next rest' IH]; intros cur l lines Hc; [exact Hc|].
  simpl.
  assert (Happ : forall x, In p l -> In p (l ++ x)) by (intros; apply in_or_app; tauto).
  destruct (in_ cur clipPt), (in_ next clipPt); simpl; destruct rest';
    apply IH; destruct Hc as [Hc|(run & Hr & Hp)]; unfold covered; simpl;
    try (left; repeat (apply in_or_app; left); assumption);
    try (left; assumption);
    try (right; exists run; split; [|exact Hp]; try assumption;
         apply in_or_app; left; exact Hr).
  all: right; exists (l ++ [cur; isect cur next clipPt norm]);
    (split; [apply in_or_app; right; left; reflexivity
            |apply in_or_app; left; exact Hc]).
Qed.

(** Every point of the polyline that passes the test is collected. *)
Lemma clip_loop_covers p rest : forall cur l lines,
  rest <> [] ->
  In p (cur :: rest) -> in_ p clipPt = true ->
  covered p (clip_loop in_ clipPt norm cur rest l lines).
Proof.
  induction rest as [|next rest' IH]; intros cur l lines Hne Hp Hin; [congruence|].
  destruct Hp as [<-|Hp].
  - (* p is cur: appended in this iteration *)
    simpl. rewrite Hin.
    destruct (in_ next clipPt); simpl; destruct rest';
      apply clip_loop_covered_mono; unfold covered; simpl.
    + left. apply in_or_app. left. apply in_or_app. right. left. reflexivity.
    + left. apply in_or_app. right. left. reflexivity.
    + right. eexists. split; [apply in_or_app; right; left; reflexivity|].
      apply in_or_app. right. left. reflexivity.
    + right. eexists. split; [apply in_or_app; right; left; reflexivity|].
      apply in_or_app. right. left. reflexivity.
  - destruct rest' as [|p2 rest''].
    + (* p is the last point: appended after the switch *)
      destruct Hp as [<-|[]]. simpl. rewrite Hin.
      destruct (in_ cur clipPt); simpl; left;
        apply in_or_app; right; left; reflexivity.
    + remember (p2 :: rest'') as r eqn:Er.
      assert (Hr : r <> []) by (subst r; discriminate).
      simpl. destruct (in_ cur clipPt), (in_ next clipPt); simpl;
        destruct r; try congruence; apply IH; assumption.
Qed.

(** When the loop ends the open run is empty or has two points or more. *)
Lemma clip_loop_open_run rest : forall cur l lines,
  rest <> [] ->
  (in_ cur clipPt = false -> l = []) ->
  fst (clip_loop in_ clipPt norm cur rest l lines) = [] \/
  (2 <= List.length (fst (clip_loop in_ clipPt norm cur rest l lines)))%nat.
Proof.
  induction rest as [|next rest' IH]; intros cur l lines Hne Hl; [congruence|].
  simpl. destruct rest' as [|p2 rest''].
  - destruct (in_ cur clipPt), (in_ next clipPt); simpl.
    + right. rewrite !length_app. simpl. lia.
    + left. reflexivity.
    + right. rewrite !length_app. simpl. lia.
    + left. apply Hl. reflexivity.
  - remember (p2 :: rest'') as r eqn:Er.
    assert (Hr : r <> []) by (subst r; discriminate).
    destruct (in_ cur clipPt) eqn:Ec, (in_ next clipPt) eqn:En; simpl;
      destruct r; try congruence; apply IH; try assumption; intros E;
      try congruence; try reflexivity.
    apply Hl. reflexivity.
Qed.

(** No point that passes the test is lost: in a polyline of two points or
    more, every point that passes the membership test belongs to one of the
    runs that [clip] returns. *)
Theorem clip_keeps_inside_points (pts : list point) (p : point) :
  (2 <= List.length pts)%nat ->
  In p pts -> in_ p clipPt = true ->
  exists run, In run (clip in_ clipPt norm pts) /\ In p run.
Proof.
  intros Hlen Hp Hin.
  destruct pts as [|p0 rest]; [simpl in Hlen; lia|].
  assert (Hne : rest <> []) by (destruct rest; [simpl in Hlen; lia|discriminate]).
  unfold clip.
  pose proof (@clip_loop_covers p rest p0 [] [] Hne Hp Hin) as Hcov.
  pose proof (@clip_loop_open_run rest p0 [] [] Hne (fun _ => eq_refl)) as Hopen.
  destruct (clip_loop in_ clipPt norm p0 rest [] []) as [l lines].
  unfold covered in Hcov. simpl in Hcov, Hopen.
  destruct Hcov as [Hl|(run & Hr & Hpr)].
  - destruct Hopen as [->|Hopen]; [contradiction|].
    assert (E : Nat.ltb 1 (List.length l) = true) by (apply Nat.ltb_lt; lia).
    rewrite E. exists l. split; [apply in_or_app; right; left; reflexivity|exact Hl].
  - exists run. split; [|exact Hpr].
    destruct (Nat.ltb 1 (List.length l)); [apply in_or_app; left|]; exact Hr.
Qed.

End ClipKeeps.

Lemma clip_keeps_inside_points_witness :
  exists run,
    In run (clip isLeft (point.mk 10 0) (point.mk (-1) 0) crossingPolyline) /\
    In (point.mk (-5) 5) run.
Proof.
  apply (@clip_keeps_inside_points isLeft (point.mk 10 0) (point.mk (-1) 0)
           crossingPolyline (point.mk (-5) 5)).
  - simpl. lia.
  - left. reflexivity.
  - vm_compute. reflexivity.
Defined.

(** ** Line styles and stroking *)

(** The loop of [setLineStyle] copies the dash pattern. *)
Lemma dashDots_copy (ds acc : list Length) :
  fold_left (fun a dash => a ++ [dash]) ds acc = acc ++ ds.
Proof.
  revert acc. induction ds as [|d ds IH]; intros acc; simpl.
  - rewrite app_nil_r. reflexivity.
  - rewrite IH, <- app_assoc. reflexivity.
Qed.

(** [setLineStyle] issues three commands and never panics: the color, the
    width, and the dash pattern of the style, unchanged and in order, with
    its offset. *)
Theorem setLineStyle_commands `{Vg} {Canvas} (da : drawArea Canvas) (sty : LineStyle) :
  setLineStyle da sty
  = ([SetColor (LineStyle.Color sty); SetLineWidth (LineStyle.Width sty);
      SetLineDash (LineStyle.Dashes sty) (LineStyle.DashOffs sty)], inl tt).
Proof.
  unfold setLineStyle. rewrite dashDots_copy. reflexivity.
Qed.

(** What [strokeLine] issues for a polyline that is not empty. *)
Lemma strokeLine_cons `{Vg} {Canvas} (da : drawArea Canvas) (sty : LineStyle)
    (p0 : point) (rest : list point) :
  strokeLine da sty (p0 :: rest)
  = ([SetColor (LineStyle.Color sty); SetLineWidth (LineStyle.Width sty);
      SetLineDash (LineStyle.Dashes sty) (LineStyle.DashOffs sty);
      Stroke (MoveComp (point.x p0) (point.y p0)
              :: map (fun pt => LineComp (point.x pt) (point.y pt)) (p0 :: rest))],
     inl tt).
Proof.
  unfold strokeLine, setLineStyle. rewrite dashDots_copy. reflexivity.
Qed.

(** [forEach] over routines that each issue four commands, one of them
    painting, and return normally. *)
Lemma forEach_strokeLine `{Vg} {Canvas} (da : drawArea Canvas) (sty : LineStyle)
    (runs : list (list point)) :
  Forall (fun run => (2 <= List.length run)%nat) runs ->
  snd (forEach (strokeLine da sty) runs) = inl tt /\
  List.length (issued (forEach (strokeLine da sty) runs)) = (4 * List.length runs)%nat /\
  inkCount (issued (forEach (strokeLine da sty) runs)) = List.length runs.
Proof.
  induction 1 as [|run runs Hrun _ IH]; [repeat split|].
  destruct run as [|p0 rest]; [simpl in Hrun; lia|].
  cbn [forEach]. rewrite strokeLine_cons.
  destruct (forEach (strokeLine da sty) runs) as [tr r].
  unfold issued, inkCount in *. simpl in *.
  destruct IH as (-> & IH2 & IH3). rewrite IH2, IH3.
  repeat split; lia.
Qed.

(** The same bound as for [clip], for the runs of the four stages. *)
Lemma clip_runs_long (in_ : point -> point -> bool) (clipPt norm : point)
    (pts : list point) :
  Forall (fun run => (2 <= List.length run)%nat) (clip in_ clipPt norm pts).
Proof.
  destruct pts as [|p rest]; [constructor|].
  unfold clip.
  pose proof (@clip_loop_runs in_ clipPt norm rest p [] [] (Forall_nil _)) as Hruns.
  destruct (clip_loop in_ clipPt norm p rest [] []) as [l lines]; simpl in *.
  destruct (Nat.ltb 1 (List.length l)) eqn:E; [|exact Hruns].
  apply Forall_app; split; [exact Hruns|].
  constructor; [|constructor]. apply Nat.ltb_lt in E. lia.
Qed.

Lemma clippedLines_runs_long {Canvas} (da : drawArea Canvas) (pts : list point) :
  Forall (fun run => (2 <= List.length run)%nat) (clippedLines da pts).
Proof.
  unfold clippedLines.
  match goal with |- Forall _ (flat_map ?f ?ls) => generalize ls end.
  intros ls. induction ls as [|run ls IH]; simpl; [constructor|].
  apply Forall_app. split; [apply clip_runs_long|exact IH].
Qed.

(** [strokeClippedLine] never panics, whatever the polyline; it strokes
    exactly one path per visible run and issues nothing else that paints:
    four commands per run, the three style setters and the stroke. *)
Theorem strokeClippedLine_commands `{Vg} {Canvas} (da : drawArea Canvas)
    (sty : LineStyle) (pts : list point) :
  panicked (strokeClippedLine da sty pts) = None /\
  List.length (issued (strokeClippedLine da sty pts))
  = (4 * List.length (clippedLines da pts))%nat /\
  inkCount (issued (strokeClippedLine da sty pts))
  = List.length (clippedLines da pts).
Proof.
  unfold strokeClippedLine, panicked.
  destruct (forEach_strokeLine da sty (clippedLines_runs_long da pts))
    as (E1 & E2 & E3).
  rewrite E1. repeat split; assumption.
Qed.

(** [strokeLine] on the empty polyline issues nothing; on any other it sets
    the style and strokes one path, which moves to the first point and then
    draws a line to every point of the polyline, the first included. *)
Theorem strokeLine_commands `{Vg} {Canvas} (da : drawArea Canvas) (sty : LineStyle)
    (p0 : point) (rest : list point) :
  strokeLine da sty [] = ([], inl tt) /\
  strokeLine da sty (p0 :: rest)
  = ([SetColor (LineStyle.Color sty); SetLineWidth (LineStyle.Width sty);
      SetLineDash (LineStyle.Dashes sty) (LineStyle.DashOffs sty);
      Stroke (MoveComp (point.x p0) (point.y p0)
              :: LineComp (point.x p0) (point.y p0)
              :: map (fun pt => LineComp (point.x pt) (point.y pt)) rest)],
     inl tt).
Proof.
  split; [reflexivity|]. rewrite strokeLine_cons. reflexivity.
Qed.

(** ** More on glyphs *)

(** At a point inside the area, [CircleGlyph] and [RingGlyph] draw the same
    closed outline, which starts one radius right of the point: the first
    fills it and the second strokes it.  Neither panics. *)
Theorem drawGlyph_circle_ring `{Vg} {Canvas} (da : drawArea Canvas)
    (sty : GlyphStyle) (pt : point) :
  drawArea.contains da pt = true ->
  (GlyphStyle.Shape sty = CircleGlyph ->
   drawGlyph da sty pt
   = ([SetColor None; SetLineWidth (vg_Points (1 # 2)); SetLineDash [] 0;
       SetColor (GlyphStyle.Color sty); Fill (circlePath sty pt)], inl tt)) /\
  (GlyphStyle.Shape sty = RingGlyph ->
   drawGlyph da sty pt
   = ([SetColor None; SetLineWidth (vg_Points (1 # 2)); SetLineDash [] 0;
       SetColor (GlyphStyle.Color sty); Stroke (circlePath sty pt)], inl tt)).
Proof.
  intros Hin. unfold drawGlyph. rewrite Hin.
  split; intros ->; reflexivity.
Qed.

Lemma drawGlyph_circle_ring_witness :
  inkCount (issued (drawGlyph area10 discGlyph (point.mk 5 5))) = 1%nat.
Proof.
  rewrite (proj1 (@drawGlyph_circle_ring plainVg unit area10 discGlyph
                    (point.mk 5 5) eq_refl) eq_refl).
  reflexivity.
Defined.

(** At a point inside the area, a letter shape is drawn as text in the
    default font at twice the radius: if the font cannot be made,
    [drawGlyph] panics with the font error and has painted nothing;
    otherwise it fills the one-letter string, horizontally centered on the
    point and lowered by the descent of the font. *)
Theorem drawGlyph_letter `{Vg} {Canvas} (da : drawArea Canvas)
    (sty : GlyphStyle) (pt : point) :
  drawArea.contains da pt = true ->
  (65 <= GlyphStyle.Shape sty <= 90)%N ->
  match vg_MakeFont defaultFont (GlyphStyle.Radius sty * 2) with
  | inr err =>
      panicked (drawGlyph da sty pt) = Some (PanicError err) /\
      inkCount (issued (drawGlyph da sty pt)) = 0%nat
  | inl font =>
      let str := String (ascii_of_N (GlyphStyle.Shape sty)) EmptyString in
      drawGlyph da sty pt
      = ([SetColor None; SetLineWidth (vg_Points (1 # 2)); SetLineDash [] 0;
          SetColor (GlyphStyle.Color sty);
          FillText font (point.x pt - font_Width font str / 2)
                   (point.y pt + font_Descent font) str], inl tt)
  end.
Proof.
  intros Hin [H65 H90]. unfold drawGlyph. rewrite Hin.
  assert (E0 : N.eqb (GlyphStyle.Shape sty) CircleGlyph = false)
    by (apply N.eqb_neq; unfold CircleGlyph; lia).
  assert (E1 : N.eqb (GlyphStyle.Shape sty) RingGlyph = false)
    by (apply N.eqb_neq; unfold RingGlyph; lia).
  assert (E2 : N.leb 65 (GlyphStyle.Shape sty) && N.leb (GlyphStyle.Shape sty) 90 = true)
    by (apply andb_true_iff; split; apply N.leb_le; assumption).
  simpl negb. cbv iota. rewrite E0, E1, E2.
  destruct (vg_MakeFont defaultFont (GlyphStyle.Radius sty * 2)) as [font|err];
    [reflexivity|split; reflexivity].
Qed.

Lemma drawGlyph_letter_witness :
  inkCount (issued (drawGlyph area10 letterGlyph (point.mk 5 5))) = 1%nat.
Proof.
  assert (Hin : drawArea.contains area10 (point.mk 5 5) = true) by reflexivity.
  assert (Hsh : (65 <= GlyphStyle.Shape letterGlyph <= 90)%N)
    by (split; vm_compute; discriminate).
  pose proof (@drawGlyph_letter plainVg unit area10 letterGlyph (point.mk 5 5)
                Hin Hsh) as E.
  simpl in E. rewrite E. reflexivity.
Defined.

(** Whatever the style and the point, [drawGlyph] paints at most once: it
    issues exactly one painting command when the point is inside the area and
    it does not panic, and none otherwise. *)
Theorem drawGlyph_paints_once `{Vg} {Canvas} (da : drawArea Canvas)
    (sty : GlyphStyle) (pt : point) :
  inkCount (issued (drawGlyph da sty pt))
  = if drawArea.contains da pt
    then match panicked (drawGlyph da sty pt) with None => 1%nat | Some _ => 0%nat end
    else 0%nat.
Proof.
  unfold drawGlyph.
  destruct (drawArea.contains da pt); [|reflexivity]. simpl negb. cbv iota.
  destruct (N.eqb (GlyphStyle.Shape sty) CircleGlyph); [reflexivity|].
  destruct (N.eqb (GlyphStyle.Shape sty) RingGlyph); [reflexivity|].
  destruct (N.leb 65 (GlyphStyle.Shape sty) && N.leb (GlyphStyle.Shape sty) 90);
    [|reflexivity].
  destruct (vg_MakeFont defaultFont (GlyphStyle.Radius sty * 2)); reflexivity.
Qed.

(** ** Text *)

Lemma trimRightNewlines_app_newline (txt : string) :
  trimRightNewlines (txt ++ String newline EmptyString) = trimRightNewlines txt.
Proof.
  induction txt as [|ch rest IH]; [reflexivity|].
  cbn [append trimRightNewlines]. rewrite IH. reflexivity.
Qed.

Lemma trimRightNewlines_empty (txt : string) :
  trimRightNewlines txt = EmptyString <-> onlyNewlines txt = true.
Proof.
  induction txt as [|ch rest IH]; simpl; [tauto|].
  destruct (trimRightNewlines rest) as [|c t] eqn:E.
  - destruct (Ascii.eqb ch newline); simpl.
    + rewrite <- IH. tauto.
    + split; discriminate.
  - split; [discriminate|]. intros Hb. apply andb_true_iff in Hb.
    destruct Hb as [_ Hb]. apply IH in Hb. discriminate Hb.
Qed.

Lemma countLines_shift (txt : string) : forall n,
  countLines txt n = (n + countLines txt 0)%Z.
Proof.
  induction txt as [|ch rest IH]; intros n; simpl; [lia|].
  destruct (Ascii.eqb ch newline).
  - rewrite (IH (n + 1)%Z), (IH 1%Z). lia.
  - apply IH.
Qed.

Lemma countLines_ge (txt : string) : (0 <= countLines txt 0)%Z.
Proof.
  induction txt as [|ch rest IH]; simpl; [lia|].
  destruct (Ascii.eqb ch newline); [|exact IH].
  rewrite countLines_shift. lia.
Qed.

Lemma splitLines_nonempty (txt : string) : splitLines txt <> [].
Proof.
  destruct txt as [|ch rest]; simpl; [discriminate|].
  destruct (Ascii.eqb ch newline); [discriminate|].
  destruct (splitLines rest); discriminate.
Qed.

(** [strings.Split] makes one piece more than there are newlines. *)
Lemma splitLines_length (txt : string) :
  Z.of_nat (List.length (splitLines txt)) = countLines txt 1.
Proof.
  induction txt as [|ch rest IH]; simpl; [reflexivity|].
  destruct (Ascii.eqb ch newline).
  - simpl List.length.
    rewrite (countLines_shift rest 2). rewrite (countLines_shift rest 1) in IH. lia.
  - pose proof (splitLines_nonempty rest) as Hne.
    destruct (splitLines rest) as [|line lines]; [congruence|]. exact IH.
Qed.

(** Joining the pieces with newlines gives the text back. *)
Lemma splitLines_join (txt : string) :
  String.concat (String newline EmptyString) (splitLines txt) = txt.
Proof.
  induction txt as [|ch rest IH]; simpl; [reflexivity|].
  pose proof (splitLines_nonempty rest) as Hne.
  destruct (Ascii.eqb ch newline) eqn:E.
  - apply Ascii.eqb_eq in E. subst ch.
    destruct (splitLines rest) as [|line lines]; [congruence|].
    simpl in *. rewrite IH. reflexivity.
  - destruct (splitLines rest) as [|line lines]; [congruence|].
    simpl in *. destruct lines; simpl in *; rewrite <- IH; reflexivity.
Qed.

(** [textNLines] does not count trailing newlines; it is 0 exactly on the
    texts made of newlines only (the empty text among them), and otherwise
    it is the number of pieces into which the text, without its trailing
    newlines, splits. *)
Theorem textNLines_trailing_newlines (txt : string) :
  textNLines (txt ++ String newline EmptyString) = textNLines txt /\
  (textNLines txt = 0%Z <-> onlyNewlines txt = true) /\
  (onlyNewlines txt = false ->
   textNLines txt
   = Z.of_nat (List.length (splitLines (trimRightNewlines txt)))).
Proof.
  unfold textNLines. rewrite trimRightNewlines_app_newline.
  split; [reflexivity|].
  pose proof (trimRightNewlines_empty txt) as Hempty.
  destruct (trimRightNewlines txt) as [|ch t] eqn:E; simpl Nat.eqb; cbv iota.
  - split; [tauto|].
    intros Hf. destruct Hempty as [Hempty _]. rewrite Hempty in Hf by reflexivity.
    discriminate Hf.
  - split.
    + split.
      * intros H0. rewrite countLines_shift in H0.
        pose proof (countLines_ge (String ch t)). lia.
      * intros Hb. apply Hempty in Hb. discriminate Hb.
    + intros _. symmetry. apply splitLines_length.
Qed.

(** The loop of [fillText] fills every line it is given, in order, and
    returns normally. *)
Lemma fillLines_trace `{VgText} (sty : TextStyle) (x y xalign : Length) (nl : Z)
    (lines : list string) : forall i,
  snd (fillLines sty x y xalign nl lines i) = inl tt /\
  filledStrings (issued (fillLines sty x y xalign nl lines i)) = lines /\
  inkCount (issued (fillLines sty x y xalign nl lines i)) = List.length lines.
Proof.
  induction lines as [|line lines IH]; intros i; [repeat split|].
  cbn [fillLines]. specialize (IH (i + 1)%Z).
  destruct (fillLines sty x y xalign nl lines (i + 1)) as [tr r].
  unfold issued, inkCount in *. simpl in *.
  destruct IH as (-> & -> & ->). repeat split.
Qed.

(** [fillText] never panics and draws the text line by line: it fills
    exactly [textNLines txt] strings, and these strings, joined by newlines,
    are the text without its trailing newlines.  For a text made of newlines
    only it issues no command at all. *)
Theorem fillText_lines `{VgText} {Canvas} (da : drawArea Canvas) (sty : TextStyle)
    (x y : Length) (xalign yalign : Q) (txt : string) :
  panicked (fillText da sty x y xalign yalign txt) = None /\
  Z.of_nat (inkCount (issued (fillText da sty x y xalign yalign txt)))
  = textNLines txt /\
  String.concat (String newline EmptyString)
    (filledStrings (issued (fillText da sty x y xalign yalign txt)))
  = trimRightNewlines txt /\
  (onlyNewlines txt = true ->
   issued (fillText da sty x y xalign yalign txt) = []).
Proof.
  unfold fillText.
  assert (Hn : textNLines txt
               = if Nat.eqb (String.length (trimRightNewlines txt)) 0 then 0%Z
                 else countLines (trimRightNewlines txt) 1) by reflexivity.
  rewrite Hn. clear Hn.
  pose proof (trimRightNewlines_empty txt) as Hempty.
  destruct (trimRightNewlines txt) as [|ch t] eqn:E; simpl Nat.eqb; cbv iota.
  - repeat split.
  - cbv zeta. remember (String ch t) as s0 eqn:Es.
    match goal with |- context [fillLines ?s ?a ?b ?c ?n ?ls ?i] =>
      destruct (fillLines_trace s a b c n ls i) as (F1 & F2 & F3);
      destruct (fillLines s a b c n ls i) as [tr r] end.
    unfold issued, inkCount, panicked in *. simpl in *. subst r.
    rewrite F2, F3. repeat split.
    + apply splitLines_length.
    + apply splitLines_join.
    + intros Hb. apply Hempty in Hb. subst s0. discriminate Hb.
Qed.

(** The running maximum of [width] never decreases. *)
Lemma width_fold_ge `{VgText} (sty : TextStyle) (lines : list string) : forall m,
  m <= fold_left (fun max line =>
                    let w := font_Width (TextStyle.Font sty) line in
                    if Qgtb w max then w else max) lines m /\
  Forall (fun line =>
            font_Width (TextStyle.Font sty) line
            <= fold_left (fun max line =>
                            let w := font_Width (TextStyle.Font sty) line in
                            if Qgtb w max then w else max) lines m) lines.
Proof.
  induction lines as [|line lines IH]; intros m; simpl; cbv zeta in *.
  - split; [lra|constructor].
  - destruct (Qgtb (font_Width (TextStyle.Font sty) line) m) eqn:E.
    + apply Qltb_spec in E.
      destruct (IH (font_Width (TextStyle.Font sty) line)) as [I1 I2].
      split; [lra|]. constructor; assumption.
    + apply Qltb_false in E. destruct (IH m) as [I1 I2].
      split; [exact I1|]. constructor; [lra|exact I2].
Qed.

(** [width] is never negative, even for a font that reports negative
    widths, and no line of the text (without its trailing newlines) is wider
    than it. *)
Theorem width_bounds `{VgText} (sty : TextStyle) (txt : string) :
  0 <= width sty txt /\
  Forall (fun line => font_Width (TextStyle.Font sty) line <= width sty txt)
         (splitLines (trimRightNewlines txt)).
Proof. unfold width. apply width_fold_ge. Qed.

(** ** Axes *)

(** On an axis whose range is not empty, [norm] sends [Min] to 0 and [Max]
    to 1, so that [x] and [y] send the ends of the range to the ends of the
    draw area. *)
Theorem axis_endpoints `{Vg} {Canvas} (a : Axis) (da : drawArea Canvas) :
  ~ Axis.Max a == Axis.Min a ->
  Axis.norm a (Axis.Min a) == 0 /\
  Axis.norm a (Axis.Max a) == 1 /\
  Axis.x a da (Axis.Min a) == point.x (drawArea.min da) /\
  Axis.x a da (Axis.Max a) == point.x (drawArea.max da) /\
  Axis.y a da (Axis.Min a) == point.y (drawArea.min da) /\
  Axis.y a da (Axis.Max a) == point.y (drawArea.max da).
Proof.
  intros Hne.
  assert (Hd : ~ Axis.Max a - Axis.Min a == 0) by (intro E; apply Hne; lra).
  unfold Axis.x, Axis.y, Axis.norm, drawArea.x, drawArea.y.
  repeat split; field; exact Hd.
Qed.

Lemma axis_endpoints_witness :
  Axis.x sampleAxis area10 (Axis.Max sampleAxis) == point.x (drawArea.max area10).
Proof.
  refine (proj1 (proj2 (proj2 (proj2
            (@axis_endpoints fixedVg unit sampleAxis area10 _))))).
  intro E. vm_compute in E. discriminate E.
Defined.

(** The five default ticks sit at 0, 1/4, 1/2, 3/4 and 1 of a range that is
    not empty; the second and the fourth are minor, and the three others are
    major as long as the formatted label is not the empty string. *)
Theorem DefaultTicks_positions (formatG : Q -> string) (min max : Q) :
  ~ max == min ->
  Forall2 Qeq
    (map (fun tk => (Tick.Value tk - min) / (max - min)) (DefaultTicks formatG min max))
    [0; 1 # 4; 1 # 2; 3 # 4; 1] /\
  ((forall v, formatG v <> EmptyString) ->
   map Tick.minor (DefaultTicks formatG min max) = [false; true; false; true; false]).
Proof.
  intros Hne.
  assert (Hd : ~ max - min == 0) by (intro E; apply Hne; lra).
  split.
  - unfold DefaultTicks. simpl.
    repeat (constructor; [field; exact Hd|]). constructor.
  - intros Hf. unfold DefaultTicks, Tick.minor. simpl.
    assert (Hb : forall v, String.eqb (formatG v) EmptyString = false)
      by (intro v; apply String.eqb_neq; apply Hf).
    rewrite !Hb. reflexivity.
Qed.

Lemma DefaultTicks_positions_witness :
  map Tick.minor (DefaultTicks (fun _ => "x"%string) 2 12)
  = [false; true; false; true; false].
Proof.
  refine (proj2 (@DefaultTicks_positions (fun _ => "x"%string) 2 12 _) _).
  - intro E. vm_compute in E. discriminate E.
  - intros v. discriminate.
Defined.

(** The running maximum of [tickLabelHeight] never decreases and bounds the
    height of each major label it has seen. *)
Lemma tickLabelHeight_fold `{VgText} (sty : TextStyle) (ticks : list Tick) : forall m,
  m <= fold_left (fun maxHeight tk =>
                    if Tick.minor tk then maxHeight
                    else let h := height sty (Tick.Label tk) in
                         if Qgtb h maxHeight then h else maxHeight) ticks m /\
  Forall (fun tk =>
            Tick.minor tk = false ->
            height sty (Tick.Label tk)
            <= fold_left (fun maxHeight tk =>
                            if Tick.minor tk then maxHeight
                            else let h := height sty (Tick.Label tk) in
                                 if Qgtb h maxHeight then h else maxHeight) ticks m)
         ticks.
Proof.
  induction ticks as [|tk ticks IH]; intros m; simpl; cbv zeta in *.
  - split; [lra|constructor].
  - destruct (Tick.minor tk) eqn:Em.
    + destruct (IH m) as [I1 I2]. split; [exact I1|].
      constructor; [intros Hf; congruence|exact I2].
    + destruct (Qgtb (height sty (Tick.Label tk)) m) eqn:E.
      * apply Qltb_spec in E.
        destruct (IH (height sty (Tick.Label tk))) as [I1 I2].
        split; [lra|]. constructor; [intros _; exact I1|exact I2].
      * apply Qltb_false in E. destruct (IH m) as [I1 I2].
        split; [exact I1|]. constructor; [intros _; lra|exact I2].
Qed.

(** [tickLabelHeight] is never negative and no major tick has a label higher
    than it; minor ticks are not measured. *)
Theorem tickLabelHeight_bounds `{VgText} (sty : TextStyle) (ticks : list Tick) :
  0 <= tickLabelHeight sty ticks /\
  Forall (fun tk => Tick.minor tk = false ->
                    height sty (Tick.Label tk) <= tickLabelHeight sty ticks) ticks.
Proof. unfold tickLabelHeight. apply tickLabelHeight_fold. Qed.

(** Text and lines are drawn without panic. *)
Lemma fillText_ok `{VgText} {Canvas} (da : drawArea Canvas) (sty : TextStyle)
    (x y : Length) (xalign yalign : Q) (txt : string) :
  exists tr, fillText da sty x y xalign yalign txt = (tr, inl tt).
Proof.
  unfold fillText.
  destruct (Nat.eqb (String.length (trimRightNewlines txt)) 0);
    [eexists; reflexivity|].
  cbv zeta.
  match goal with |- context [fillLines ?s ?a ?b ?c ?n ?ls ?i] =>
    destruct (fillLines_trace s a b c n ls i) as (F1 & _);
    destruct (fillLines s a b c n ls i) as [tr r] end.
  simpl in F1. subst r. eexists. reflexivity.
Qed.

Lemma strokeLine_ok `{Vg} {Canvas} (da : drawArea Canvas) (sty : LineStyle)
    (pts : list point) :
  exists tr, strokeLine da sty pts = (tr, inl tt).
Proof.
  destruct pts as [|p0 rest]; [eexists; reflexivity|].
  rewrite strokeLine_cons. eexists. reflexivity.
Qed.

Lemma forEach_ok `{Vg} {A} (f : A -> draw unit) (xs : list A) :
  (forall a, exists tr, f a = (tr, inl tt)) ->
  exists tr, forEach f xs = (tr, inl tt).
Proof.
  intros Hf. induction xs as [|a xs IH]; [eexists; reflexivity|].
  cbn [forEach]. destruct (Hf a) as [tr1 ->]. destruct IH as [tr2 ->].
  eexists. reflexivity.
Qed.

(** [horizontalAxis.draw] never panics, and the last thing it draws is the
    axis line, from the left to the right edge of the area, at the height
    that [horizontalAxis.size] reserves for it: half the line width and the
    padding below the top of the axis. *)
Theorem horizontalAxis_draw_line `{VgText} {Canvas} (a : Axis)
    (da : drawArea Canvas) :
  exists (before : list command) (y : Length),
    horizontalAxis_draw a da
    = (before
       ++ [SetColor (LineStyle.Color (Axis.Line a));
           SetLineWidth (LineStyle.Width (Axis.Line a));
           SetLineDash (LineStyle.Dashes (Axis.Line a))
                       (LineStyle.DashOffs (Axis.Line a));
           Stroke [MoveComp (point.x (drawArea.min da)) y;
                   LineComp (point.x (drawArea.min da)) y;
                   LineComp (point.x (drawArea.max da)) y]],
       inl tt) /\
    y + LineStyle.Width (Axis.Line a) / 2 + Axis.Padding a
      == point.y (drawArea.min da) + horizontalAxis_size a.
Proof.
  unfold horizontalAxis_draw, horizontalAxis_size, strokeLine2. cbv zeta.
  set (marks := Axis.TickMarker a (Axis.Min a) (Axis.Max a)).
  destruct (negb (String.eqb (Axis.LabelText a) EmptyString)).
  - match goal with |- context [fillText ?d ?s ?x ?y ?xa ?ya ?t] =>
      destruct (fillText_ok d s x y xa ya t) as [tr1 ->] end.
    cbn [bind ret].
    destruct (Nat.ltb 0 (List.length marks)).
    + match goal with |- context [forEach ?f marks ;; _ ;; _] =>
        destruct (@forEach_ok _ _ f marks) as [tr2 ->];
        [intros tk; destruct (Tick.minor tk);
         [eexists; reflexivity|apply fillText_ok]|]
      end.
      match goal with |- context [forEach ?f marks] =>
        destruct (@forEach_ok _ _ f marks) as [tr3 ->];
        [intros tk; apply strokeLine_ok|]
      end.
      cbn [bind ret]. rewrite strokeLine_cons. cbn [map point.x point.y].
      rewrite ?app_assoc.
      first [eexists; eexists; split; [reflexivity|ring]
            |exists []; eexists; split; [reflexivity|ring]].
    + cbn [bind ret]. rewrite strokeLine_cons. cbn [map point.x point.y].
      rewrite ?app_assoc.
      first [eexists; eexists; split; [reflexivity|ring]
            |exists []; eexists; split; [reflexivity|ring]].
  - cbn [bind ret].
    destruct (Nat.ltb 0 (List.length marks)).
    + match goal with |- context [forEach ?f marks ;; _ ;; _] =>
        destruct (@forEach_ok _ _ f marks) as [tr2 ->];
        [intros tk; destruct (Tick.minor tk);
         [eexists; reflexivity|apply fillText_ok]|]
      end.
      match goal with |- context [forEach ?f marks] =>
        destruct (@forEach_ok _ _ f marks) as [tr3 ->];
        [intros tk; apply strokeLine_ok|]
      end.
      cbn [bind ret]. rewrite strokeLine_cons. cbn [map point.x point.y].
      rewrite ?app_assoc.
      first [eexists; eexists; split; [reflexivity|ring]
            |exists []; eexists; split; [reflexivity|ring]].
    + cbn [bind ret]. rewrite strokeLine_cons. cbn [map point.x point.y].
      rewrite ?app_assoc.
      first [eexists; eexists; split; [reflexivity|ring]
            |exists []; eexists; split; [reflexivity|ring]].
Qed.

(** ** Reversed color maps *)

Lemma setAt_length {A} (v : A) (s : list A) : forall n,
  List.length (setAt n v s) = List.length s.
Proof.
  induction s as [|a s IH]; intros [|n]; simpl; try reflexivity.
  rewrite IH. reflexivity.
Qed.

Lemma setAt_nth {A} (v d : A) (s : list A) : forall n k,
  (n < List.length s)%nat ->
  nth k (setAt n v s) d = if Nat.eqb k n then v else nth k s d.
Proof.
  induction s as [|a s IH]; intros n k Hn; [simpl in Hn; lia|].
  destruct n as [|n], k as [|k]; simpl; try reflexivity.
  apply IH. simpl in Hn. lia.
Qed.

(** After [t] rounds the loop has filled the first [t] and the last [t]
    places with the colors of the mirrored places; it goes on until the two
    indices meet. *)
Lemma reverseLoop_spec {A} (c : list (option A)) : forall fuel t c2,
  List.length c2 = List.length c ->
  (forall k, (k < List.length c)%nat ->
     nth k c2 None
     = if Nat.ltb k t || Nat.leb (List.length c - t) k
       then nth (List.length c - 1 - k) c None else None) ->
  (2 * t <= List.length c)%nat ->
  (List.length c <= fuel + t)%nat ->
  let r := reverseLoop fuel c (Z.of_nat t)
                       (Z.of_nat (List.length c) - 1 - Z.of_nat t) c2 in
  List.length r = List.length c /\
  forall k, (k < List.length c)%nat ->
    nth k r None
    = if Nat.eqb (2 * k + 1) (List.length c) then None
      else nth (List.length c - 1 - k) c None.
Proof.
  set (n := List.length c).
  assert (Hdone : forall t c2,
    List.length c2 = n ->
    (forall k, (k < n)%nat ->
       nth k c2 None
       = if Nat.ltb k t || Nat.leb (n - t) k
         then nth (n - 1 - k) c None else None) ->
    (2 * t <= n)%nat -> (n <= 2 * t + 1)%nat ->
    List.length c2 = n /\
    forall k, (k < n)%nat ->
      nth k c2 None
      = if Nat.eqb (2 * k + 1) n then None else nth (n - 1 - k) c None).
  { intros t c2 Hlen Hinv H2 Hstop. split; [exact Hlen|].
    intros k Hk. rewrite (Hinv k Hk).
    destruct (Nat.eqb (2 * k + 1) n) eqn:E.
    - apply Nat.eqb_eq in E.
      assert (E1 : Nat.ltb k t = false) by (apply Nat.ltb_ge; lia).
      assert (E2 : Nat.leb (n - t) k = false) by (apply Nat.leb_gt; lia).
      rewrite E1, E2. reflexivity.
    - apply Nat.eqb_neq in E.
      destruct (Nat.ltb k t) eqn:E1; [reflexivity|].
      apply Nat.ltb_ge in E1.
      assert (E2 : Nat.leb (n - t) k = true) by (apply Nat.leb_le; lia).
      rewrite E2. reflexivity. }
  induction fuel as [|fuel IH]; intros t c2 Hlen Hinv H2 Hfuel; cbn [reverseLoop].
  - apply (Hdone t); try assumption. lia.
  - destruct (Z.ltb_spec (Z.of_nat t) (Z.of_nat n - 1 - Z.of_nat t)) as [Hlt|Hge].
    + assert (Ei : Z.to_nat (Z.of_nat t) = t) by lia.
      assert (Ej : Z.to_nat (Z.of_nat n - 1 - Z.of_nat t) = (n - 1 - t)%nat) by lia.
      cbv zeta. rewrite Ei, Ej.
      replace (Z.of_nat t + 1)%Z with (Z.of_nat (S t)) by lia.
      replace (Z.of_nat n - 1 - Z.of_nat t - 1)%Z
        with (Z.of_nat n - 1 - Z.of_nat (S t))%Z by lia.
      apply IH.
      * rewrite !setAt_length. exact Hlen.
      * intros k Hk.
        rewrite setAt_nth by (rewrite setAt_length; lia).
        rewrite setAt_nth by lia.
        destruct (Nat.eqb k (n - 1 - t)) eqn:Ekj.
        { apply Nat.eqb_eq in Ekj. subst k.
          assert (E2 : Nat.leb (n - S t) (n - 1 - t) = true) by (apply Nat.leb_le; lia).
          rewrite E2, orb_true_r. f_equal. lia. }
        apply Nat.eqb_neq in Ekj.
        destruct (Nat.eqb k t) eqn:Eki.
        { apply Nat.eqb_eq in Eki. subst k.
          assert (E1 : Nat.ltb t (S t) = true) by (apply Nat.ltb_lt; lia).
          rewrite E1. reflexivity. }
        apply Nat.eqb_neq in Eki.
        rewrite (Hinv k Hk).
        assert (E1 : Nat.ltb k (S t) = Nat.ltb k t).
        { destruct (Nat.ltb_spec k t), (Nat.ltb_spec k (S t)); try reflexivity; lia. }
        assert (E2 : Nat.leb (n - S t) k = Nat.leb (n - t) k).
        { destruct (Nat.leb_spec (n - t) k), (Nat.leb_spec (n - S t) k);
            try reflexivity; lia. }
        rewrite E1, E2. reflexivity.
      * lia.
      * lia.
    + apply (Hdone t); try assumption. lia.
Qed.

Lemma repeat_nth_none {A} (n k : nat) : nth k (repeat (@None A) n) None = None.
Proof.
  revert k. induction n as [|n IH]; intros [|k]; simpl; try reflexivity. apply IH.
Qed.

(** The palette of a reversed map has as many colors as the palette of the
    map it contains, and its color at each place is the color of the
    mirrored place, except at the middle place of a palette with an odd
    number of colors, which the loop does not reach and which stays nil. *)
Theorem Reverse_Palette {Color Err} (cm : ColorMap Color Err) (colors : Z) :
  let c := ColorMap.Palette cm colors in
  let r := ColorMap.Palette (Reverse cm) colors in
  List.length r = List.length c /\
  forall k, (k < List.length c)%nat ->
    nth k r None
    = if Nat.eqb (2 * k + 1) (List.length c) then None
      else nth (List.length c - 1 - k) c None.
Proof.
  cbv zeta. unfold Reverse. simpl ColorMap.Palette. unfold reverseColors.
  set (c := ColorMap.Palette cm colors).
  pose proof (@reverseLoop_spec Color c (List.length c) 0
                (repeat None (List.length c))) as Hspec.
  simpl Z.of_nat in Hspec. rewrite Z.sub_0_r in Hspec.
  apply Hspec.
  - apply repeat_length.
  - intros k Hk. rewrite repeat_nth_none.
    assert (E2 : Nat.leb (List.length c - 0) k = false) by (apply Nat.leb_gt; lia).
    rewrite E2. reflexivity.
  - lia.
  - lia.
Qed.

(** ** Polylines outside the area *)




Section ClipChain.
Variable in_ : point -> point -> bool.
Variables clipPt norm : point.
Variables Pre Post : point -> Prop.
Variable R : point -> point -> Prop.
Hypothesis in_Post : forall p, Pre p -> in_ p clipPt = true -> Post p.
Hypothesis leave_Post : forall a b,
  Pre a -> Pre b -> R a b -> in_ a clipPt = true -> in_ b clipPt = false ->
  Post (isect a b clipPt norm) /\ R a (isect a b clipPt norm).
Hypothesis enter_Post : forall a b,
  Pre a -> Pre b -> R a b -> in_ a clipPt = false -> in_ b clipPt = true ->
  Post (isect a b clipPt norm) /\ R (isect a b clipPt norm) b.





End ClipChain.

(** The four tests together are membership of the rectangle enlarged by
    the tolerance. *)
Lemma passesAll_withinTol {Canvas} (da : drawArea Canvas) (p : point) :
  passesAll da p = true <-> withinTol da p.
Proof.
  unfold passesAll, withinTol, isLeft, isAbove, isRight, isBelow, Qgeb. simpl.
  rewrite !andb_true_iff, !Qleb_spec. tauto.
Qed.

Lemma passesAll_outside {Canvas} (da : drawArea Canvas) (p : point) :
  passesAll da p = false <-> ~ withinTol da p.
Proof.
  rewrite <- passesAll_withinTol.
  destruct (passesAll da p); split; intros; congruence.
Qed.










Section OutsideEnlarged.
Context {Canvas : Type}.
Variable da : drawArea Canvas.
Hypothesis width_nonneg : 0 <= point.x (drawArea.size da).
Hypothesis height_nonneg : 0 <= point.y (drawArea.size da).

Let a := point.x (drawArea.min da).
Let b := point.x (drawArea.max da).
Let c := point.y (drawArea.min da).
Let d := point.y (drawArea.max da).
Let R := segmentOutside da.

(** What is known of the points after the right, the bottom and the left
    stage. *)
Let P1 (p : point) : Prop :=
  point.x p <= b /\
  (c <= point.y p \/ point.y p < c - slop) /\
  (a <= point.x p \/ point.x p < a - slop).


Lemma enlarged_outside p :
  ~ withinTol da p <->
  ~ (point.x p <= b + slop /\ c - slop <= point.y p /\
     a - slop <= point.x p /\ point.y p <= d + slop).
Proof. reflexivity. Qed.






End OutsideEnlarged.





(** Why the rectangle is enlarged: [grazingSegment] has no point in
    [area10] and both its points keep clear of the bands, but it passes the
    lower right corner closer than the tolerance, and the four stages
    return a run. *)
Lemma clippedLines_corner_graze :
  (forall p, In p grazingSegment -> clearOfBands area10 p) /\
  (forall t, 0 <= t -> t <= 1 ->
     drawArea.contains area10
       (lerp (point.mk 20 1) (point.mk 0 (- 1 - slop)) t) = false) /\
  clippedLines area10 grazingSegment <> [].
Proof.
  split; [|split].
  - intros p [<-|[<-|[]]]; unfold clearOfBands, slop; simpl;
      repeat split; lra.
  - intros t T0 T1.
    destruct (drawArea.contains area10 _) eqn:E; [exfalso|reflexivity].
    unfold drawArea.contains, Qgeb in E.
    rewrite !andb_true_iff, !Qleb_spec in E.
    unfold lerp, point.plus, point.scale, point.minus, slop in E.
    simpl in E. lra.
  - vm_compute. discriminate.
Qed.

(** Why the size is non-negative: on [flippedArea] no point passes both the
    test of the right and the test of the left edge, and both points of
    [shallowSegment] keep clear of the bands, but the four stages return a
    run. *)
Lemma clippedLines_negative_width :
  chain (segmentOutside flippedArea) shallowSegment /\
  (forall p, In p shallowSegment -> clearOfBands flippedArea p) /\
  clippedLines flippedArea shallowSegment <> [].
Proof.
  split; [|split].
  - repeat split; intros t T0 T1; apply passesAll_outside;
      unfold withinTol, lerp, point.plus, point.scale, point.minus, slop;
      simpl; intros [H1 [H2 [H3 H4]]]; lra.
  - intros p [<-|[<-|[]]]; unfold clearOfBands, slop; simpl;
      repeat split; lra.
  - vm_compute. discriminate.
Qed.

(** Why the bands of the bottom and of the left edge are excluded as the
    band of the right edge is: [bottomBandSegment] lies left of the enlarged
    [area10] and [leftBandSegment] above it, each starts inside a band, and
    the four stages return a run for each. *)
Lemma clippedLines_bottom_left_bands :
  chain (segmentOutside area10) bottomBandSegment /\
  clippedLines area10 bottomBandSegment <> [] /\
  chain (segmentOutside area10) leftBandSegment /\
  clippedLines area10 leftBandSegment <> [].
Proof.
  split; [|split; [|split]].
  - repeat split; intros t T0 T1; apply passesAll_outside;
      unfold withinTol, lerp, point.plus, point.scale, point.minus, slop;
      simpl; intros [H1 [H2 [H3 H4]]]; lra.
  - vm_compute. discriminate.
  - repeat split; intros t T0 T1; apply passesAll_outside;
      unfold withinTol, lerp, point.plus, point.scale, point.minus, slop;
      simpl; intros [H1 [H2 [H3 H4]]]; lra.
  - vm_compute. discriminate.
Qed.

(** [cornerPolyline], whose first point lies in the band of the right edge,
    is a segment above the enlarged [area10]. *)
Lemma cornerPolyline_outside : chain (segmentOutside area10) cornerPolyline.
Proof.
  repeat split; intros t T0 T1; apply passesAll_outside;
    unfold withinTol, lerp, point.plus, point.scale, point.minus, slop;
    simpl; intros [H1 [H2 [H3 H4]]]; lra.
Qed.
